(** * vivast: the search-API request validation layer

    A shallow embedding of [utils/api-helpers.ts], [utils/api-types.ts],
    [api/mappings/*.ts], [api/search-api.helper.ts] and
    [api/search-validator.helper.ts], followed by the properties of the
    URL codec, the label translator, the parameter differ and the
    interception session.

    Conventions of the embedding:
    - a JavaScript string is the [string] of the bytes of its UTF-8
      encoding (the form in which the URL codec handles it); a surrogate
      that has no partner, which UTF-8 proper leaves out, takes the three
      bytes [ED A0..BF 80..BF] of the same scheme;
    - a JavaScript object is the list of its own properties in insertion
      order; a property read that misses falls through to the members
      every object inherits from [Object.prototype];
    - a method that can throw and mutate [this] is a computation in the
      monad [M], which returns the outcome together with the final state,
      so that what a throwing call leaves behind stays visible. *)

From Stdlib Require Import String Ascii List ZArith NArith Bool Lia.
From Stdlib Require Import DecimalString DecimalPos.
Import ListNotations.

Local Open Scope list_scope.
Local Open Scope string_scope.

(* ===================================================================== *)
(** * The JavaScript platform, as far as the code uses it *)
(* ===================================================================== *)

Module JS.

(** Characters that cannot stand in a literal. *)
Definition LF : ascii := "010"%char.
Definition DQ : ascii := "034"%char.
Definition nl : string := String LF EmptyString.
Definition dq : string := String DQ EmptyString.

Definition code (c : ascii) : N := N_of_ascii c.

(** ** Numbers and values *)

(** The numbers the code meets: what [parseInt] returns (an integer,
    an infinity when the digits overflow, or [NaN] when there is no digit
    to read) and the identifiers of the mapping tables. [Int z] stands
    for the double of value [z], for an integer [z] that is one
    ([is_double] below); [Int 0] stands for both zeros, which [===],
    [String] and [JSON.stringify] do not tell apart. *)
Inductive number : Type :=
| NaN
| Int (z : Z)
| Infinity (negative : bool).

Inductive value : Type :=
| VUndefined
| VNull
| VNumber (n : number)
| VString (s : string).

Definition MAX_SAFE_INTEGER : Z := 9007199254740991.

Definition isSafeInteger (z : Z) : bool :=
  ((- MAX_SAFE_INTEGER <=? z) && (z <=? MAX_SAFE_INTEGER))%Z.

(** [a === b] *)
Definition strict_equal (a b : value) : bool :=
  match a, b with
  | VUndefined, VUndefined => true
  | VNull, VNull => true
  | VNumber (Int x), VNumber (Int y) => (x =? y)%Z
  | VNumber (Infinity x), VNumber (Infinity y) => Bool.eqb x y
  | VString s, VString t => String.eqb s t
  | _, _ => false
  end.

(** Truthiness of a string: every string but the empty one. *)
Definition truthy_string (s : string) : bool :=
  match s with
  | EmptyString => false
  | String _ _ => true
  end.

(** The double nearest to the integer [m > 0], a tie going to the even
    significand of 53 bits; [None] when it is beyond the largest double,
    [2^1024 - 2^971]. *)
Definition round_to_double (m : Z) : option Z :=
  if (m <? 2 ^ 53)%Z then Some m
  else
    let shift := (Z.log2 m - 52)%Z in
    let q := Z.shiftr m shift in
    let r := (m - Z.shiftl q shift)%Z in
    let half := Z.shiftl 1 (shift - 1) in
    let q' := if ((half <? r) || (r =? half) && Z.odd q)%Z then (q + 1)%Z else q in
    let v := Z.shiftl q' shift in
    if (v <? 2 ^ 1024)%Z then Some v else None.

(** The number an integer of mathematics becomes. *)
Definition to_double (m : Z) : number :=
  match m with
  | Z0 => Int 0
  | Zpos _ =>
      match round_to_double m with
      | Some v => Int v
      | None => Infinity false
      end
  | Zneg _ =>
      match round_to_double (- m) with
      | Some v => Int (- v)
      | None => Infinity true
      end
  end.

Definition is_double (z : Z) : bool :=
  match to_double z with
  | Int z' => (z' =? z)%Z
  | _ => false
  end.

(** The decimal digits of an integer. *)
Definition digits (m : Z) : string := NilZero.string_of_int (Z.to_int m).

(** [c] reads back as the double [x]. *)
Definition reads_as (x c : Z) : bool :=
  match to_double c with
  | Int v => (v =? x)%Z
  | _ => false
  end.

(** The integer with the fewest significant digits that reads back as the
    double [x >= 0], the nearest to [x] among those, the one with the even
    last digit when two are as near: the multiples of [10^e] on either
    side of [x] are tried from the largest [e] down. *)
Fixpoint shortest_from (e : nat) (x : Z) : Z :=
  match e with
  | O => x
  | S e' =>
      let p := (10 ^ Z.of_nat e)%Z in
      let lo := (x / p * p)%Z in
      let hi := (lo + p)%Z in
      if reads_as x lo && reads_as x hi then
        if (x - lo <? hi - x)%Z then lo
        else if (hi - x <? x - lo)%Z then hi
        else if Z.even (x / p) then lo else hi
      else if reads_as x lo then lo
      else if reads_as x hi then hi
      else shortest_from e' x
  end.

Definition shortest (x : Z) : Z := shortest_from (S (Z.to_nat (Z.log2 x))) x.

Fixpoint strip_zeros (s : string) : string :=
  match s with
  | EmptyString => EmptyString
  | String c r =>
      match strip_zeros r with
      | EmptyString => if (code c =? 48)%N then EmptyString else String c EmptyString
      | r' => String c r'
      end
  end.

(** [d.ddde+n], the form of a number from [10^21] on. *)
Definition exponential (c : Z) : string :=
  let ds := digits c in
  let n := digits (Z.of_nat (String.length ds - 1)) in
  match strip_zeros ds with
  | String d EmptyString => String d ("e+" ++ n)
  | String d r => String d ("." ++ r ++ "e+" ++ n)
  | EmptyString => ds
  end.

(** [String(n)] for a number: the shortest digits that read back as [n],
    followed by zeros below [10^21] and by an exponent from there on. *)
Definition Number_toString (n : number) : string :=
  match n with
  | NaN => "NaN"
  | Infinity false => "Infinity"
  | Infinity true => "-Infinity"
  | Int z =>
      let a := Z.abs z in
      let c := shortest a in
      let text := if (a <? 10 ^ 21)%Z then digits c else exponential c in
      if (z <? 0)%Z then "-" ++ text else text
  end.

(** [String(v)], also what a template literal does with [${v}]. *)
Definition String_ (v : value) : string :=
  match v with
  | VUndefined => "undefined"
  | VNull => "null"
  | VNumber n => Number_toString n
  | VString s => s
  end.

(** ** Objects *)

(** Own properties, in insertion order. (The engine lists a key that is
    an array index before the others; none of the names the code uses is
    one.) *)
Definition obj (V : Type) : Type := list (string * V).

Definition keys {V} (o : obj V) : list string := map fst o.

Fixpoint get {V} (o : obj V) (k : string) : option V :=
  match o with
  | [] => None
  | (k', v) :: r => if String.eqb k' k then Some v else get r k
  end.

(** Define-or-overwrite of an own property: an existing key keeps its
    place, a new key goes last. *)
Fixpoint set {V} (k : string) (v : V) (o : obj V) : obj V :=
  match o with
  | [] => [(k, v)]
  | (k', v') :: r =>
      if String.eqb k' k then (k, v) :: r else (k', v') :: set k v r
  end.

(** [{ ...target, ...source }] continued from [target]. *)
Definition spread {V} (target source : obj V) : obj V :=
  fold_left (fun acc kv => set (fst kv) (snd kv) acc) source target.

(** The members of [Object.prototype]: what [o[k]] finds when [k] is no
    own property of a plain object. *)
Definition Object_prototype_members : list string :=
  [ "constructor"; "__defineGetter__"; "__defineSetter__"; "hasOwnProperty";
    "__lookupGetter__"; "__lookupSetter__"; "isPrototypeOf";
    "propertyIsEnumerable"; "toString"; "valueOf"; "__proto__";
    "toLocaleString" ].

Definition inherited (k : string) : bool :=
  existsb (String.eqb k) Object_prototype_members.

(** The outcome of [table[k]] on a plain object used as a table. *)
Inductive slot (V : Type) : Type :=
| Own (v : V)                 (* an entry of the table *)
| Inherited (k : string)      (* a member of Object.prototype: truthy,
                                 and none of its properties is an entry's *)
| Missing.                    (* undefined *)
Arguments Own {V} v.
Arguments Inherited {V} k.
Arguments Missing {V}.

Definition lookup {V} (o : obj V) (k : string) : slot V :=
  match get o k with
  | Some v => Own v
  | None => if inherited k then Inherited k else Missing
  end.

(** [o[k] = v] for a string [v] on a plain object: the inherited
    [__proto__] setter swallows a value that is no object, every other
    key becomes (or stays) an own property. *)
Definition assign (k : string) (v : string) (o : obj string) : obj string :=
  if String.eqb k "__proto__" then o else set k v o.

(** [o.k] for a parameter object, [undefined] when [k] is no own
    property (none of the names the code reads this way is inherited). *)
Definition prop (o : obj value) (k : string) : value :=
  match get o k with
  | Some v => v
  | None => VUndefined
  end.

(** ** parseInt(s, 10) *)

Definition is_digit (c : ascii) : bool :=
  (48 <=? code c)%N && (code c <=? 57)%N.

Definition digit_value (c : ascii) : Z := Z.of_N (code c) - 48.

(** Leading white space and line terminators are skipped: TAB, LF, VT,
    FF, CR, SP, and in UTF-8 U+00A0, U+1680, U+2000..U+200A, U+2028,
    U+2029, U+202F, U+205F, U+3000, U+FEFF. *)
Fixpoint skip_white (s : string) : string :=
  match s with
  | String c r =>
      let n := code c in
      if ((9 <=? n) && (n <=? 13) || (n =? 32))%N then skip_white r
      else
        match r with
        | String c1 r1 =>
            let n1 := code c1 in
            if ((n =? 194) && (n1 =? 160))%N then skip_white r1
            else
              match r1 with
              | String c2 r2 =>
                  let n2 := code c2 in
                  if ((n =? 225) && (n1 =? 154) && (n2 =? 128)
                      || (n =? 226) && (n1 =? 128)
                         && ((128 <=? n2) && (n2 <=? 138)
                             || (n2 =? 168) || (n2 =? 169) || (n2 =? 175))
                      || (n =? 226) && (n1 =? 129) && (n2 =? 159)
                      || (n =? 227) && (n1 =? 128) && (n2 =? 128)
                      || (n =? 239) && (n1 =? 187) && (n2 =? 191))%N
                  then skip_white r2
                  else s
              | EmptyString => s
              end
        | EmptyString => s
        end
  | EmptyString => s
  end.

(** The longest prefix of decimal digits, read most significant first. *)
Fixpoint read_digits (s : string) (acc : option Z) : option Z :=
  match s with
  | String c r =>
      if is_digit c
      then read_digits r
             (Some (10 * match acc with Some a => a | None => 0 end
                    + digit_value c)%Z)
      else acc
  | EmptyString => acc
  end.

Definition parseInt (s : string) : number :=
  let s1 := skip_white s in
  let '(negative, s2) :=
    match s1 with
    | String "-" r => (true, r)
    | String "+" r => (false, r)
    | _ => (false, s1)
    end in
  match read_digits s2 None with
  | None => NaN
  | Some m => to_double (if negative then - m else m)
  end.

(** ** JSON.stringify of a parameter object *)

Definition hex_lower (n : N) : ascii :=
  if (n <? 10)%N then ascii_of_N (48 + n) else ascii_of_N (87 + n).

(** The three bytes of a surrogate without a partner. *)
Definition surrogate_bytes (c c1 c2 : ascii) : bool :=
  ((code c =? 237) && (160 <=? code c1) && (code c1 <=? 191)
   && (128 <=? code c2) && (code c2 <=? 191))%N.

(** The code unit [0xD800..0xDFFF] they stand for. *)
Definition surrogate_unit (c1 c2 : ascii) : N :=
  (53248 + (code c1 - 128) * 64 + (code c2 - 128))%N.

Fixpoint JSON_quote_chars (s : string) : string :=
  match s with
  | EmptyString => EmptyString
  | String c r =>
      let n := code c in
      let plain :=
        (if (n =? 34)%N then "\" ++ dq
         else if (n =? 92)%N then "\\"
         else if (n =? 8)%N then "\b"
         else if (n =? 9)%N then "\t"
         else if (n =? 10)%N then "\n"
         else if (n =? 12)%N then "\f"
         else if (n =? 13)%N then "\r"
         else if (n <? 32)%N then
           "\u00" ++ String (hex_lower (n / 16)) (String (hex_lower (n mod 16)) EmptyString)
         else String c EmptyString) ++ JSON_quote_chars r in
      match r with
      | String c1 (String c2 r2) =>
          if surrogate_bytes c c1 c2 then
            let u := surrogate_unit c1 c2 in
            "\ud" ++ String (hex_lower (u / 256 mod 16))
                       (String (hex_lower (u / 16 mod 16))
                          (String (hex_lower (u mod 16)) EmptyString))
            ++ JSON_quote_chars r2
          else plain
      | _ => plain
      end
  end.

Definition JSON_quote (s : string) : string := dq ++ JSON_quote_chars s ++ dq.

(** A property whose value is [undefined] is left out; [NaN] and the
    infinities print as [null]. *)
Definition JSON_member (kv : string * value) : option string :=
  match snd kv with
  | VUndefined => None
  | VNull => Some (JSON_quote (fst kv) ++ ":null")
  | VNumber NaN | VNumber (Infinity _) => Some (JSON_quote (fst kv) ++ ":null")
  | VNumber (Int z) => Some (JSON_quote (fst kv) ++ ":" ++ Number_toString (Int z))
  | VString s => Some (JSON_quote (fst kv) ++ ":" ++ JSON_quote s)
  end.

Fixpoint join (sep : string) (l : list string) : string :=
  match l with
  | [] => EmptyString
  | [x] => x
  | x :: r => x ++ sep ++ join sep r
  end.

Fixpoint somes {A} (l : list (option A)) : list A :=
  match l with
  | [] => []
  | Some x :: r => x :: somes r
  | None :: r => somes r
  end.

Definition JSON_stringify (o : obj value) : string :=
  "{" ++ join "," (somes (map JSON_member o)) ++ "}".

(** ** URLSearchParams: the application/x-www-form-urlencoded codec *)

Definition is_alnum (c : ascii) : bool :=
  let n := code c in
  ((48 <=? n) && (n <=? 57) || (65 <=? n) && (n <=? 90)
   || (97 <=? n) && (n <=? 122))%N.

(** Bytes the serializer leaves as they are: alphanumerics and [*-._]. *)
Definition urlencoded_plain (c : ascii) : bool :=
  let n := code c in
  (is_alnum c || (n =? 42) || (n =? 45) || (n =? 46) || (n =? 95))%N.

Definition hex_upper (n : N) : ascii :=
  if (n <? 10)%N then ascii_of_N (48 + n) else ascii_of_N (55 + n).

Definition hex_value (c : ascii) : option N :=
  let n := code c in
  if ((48 <=? n) && (n <=? 57))%N then Some (n - 48)%N
  else if ((65 <=? n) && (n <=? 70))%N then Some (n - 55)%N
  else if ((97 <=? n) && (n <=? 102))%N then Some (n - 87)%N
  else None.

(** U+FFFD, the replacement character. *)
Definition REPLACEMENT : string :=
  String (ascii_of_N 239) (String (ascii_of_N 191) (String (ascii_of_N 189) EmptyString)).

(** The conversion to a string of scalar values, which [append] and the
    URL parser apply to what they are given: a surrogate without a partner
    becomes U+FFFD. *)
Fixpoint toUSV (s : string) : string :=
  match s with
  | EmptyString => EmptyString
  | String c r =>
      match r with
      | String c1 (String c2 r2) =>
          if surrogate_bytes c c1 c2 then REPLACEMENT ++ toUSV r2
          else String c (toUSV r)
      | _ => String c (toUSV r)
      end
  end.

(** The urlencoded byte serializer. *)
Fixpoint percent_encode (s : string) : string :=
  match s with
  | EmptyString => EmptyString
  | String c r =>
      if (code c =? 32)%N then String "+" (percent_encode r)
      else if urlencoded_plain c then String c (percent_encode r)
      else String "%" (String (hex_upper (code c / 16))
                        (String (hex_upper (code c mod 16)) (percent_encode r)))
  end.

(** A name or a value as the serializer writes it. *)
Definition urlencode (s : string) : string := percent_encode (toUSV s).

(** [searchParams.toString()] of the pairs appended so far. *)
Definition URLSearchParams_toString (l : list (string * string)) : string :=
  join "&" (map (fun nv => urlencode (fst nv) ++ "=" ++ urlencode (snd nv)) l).

Fixpoint percent_decode (s : string) : string :=
  match s with
  | EmptyString => EmptyString
  | String c r =>
      if (code c =? 37)%N then
        match r with
        | String h (String l r') =>
            match hex_value h, hex_value l with
            | Some a, Some b =>
                String (ascii_of_N (16 * a + b)) (percent_decode r')
            | _, _ => String c (percent_decode r)
            end
        | _ => String c (percent_decode r)
        end
      else String c (percent_decode r)
  end.

Fixpoint plus_to_space (s : string) : string :=
  match s with
  | EmptyString => EmptyString
  | String c r =>
      String (if (code c =? 43)%N then " "%char else c) (plus_to_space r)
  end.

(** The pieces of [s] between occurrences of [sep]. *)
Fixpoint split_on (sep : ascii) (s : string) : list string :=
  match s with
  | EmptyString => [EmptyString]
  | String c r =>
      if Ascii.eqb c sep then EmptyString :: split_on sep r
      else
        match split_on sep r with
        | h :: t => String c h :: t
        | [] => [String c EmptyString]
        end
  end.

(** [s] cut at the first [sep]: what is before, and what is after (empty
    when there is no [sep]). *)
Fixpoint break_at (sep : ascii) (s : string) : string * string :=
  match s with
  | EmptyString => (EmptyString, EmptyString)
  | String c r =>
      if Ascii.eqb c sep then (EmptyString, r)
      else let '(a, b) := break_at sep r in (String c a, b)
  end.

Definition continuation (c : ascii) : bool :=
  ((128 <=? code c) && (code c <=? 191))%N.

(** The first byte after the lead [c] of a sequence of three or four
    bytes: most leads take any continuation byte, [E0] and [F0] refuse the
    overlong forms, [ED] the surrogates and [F4] what is beyond U+10FFFF. *)
Definition second_byte (c c1 : ascii) : bool :=
  let n := code c in
  let n1 := code c1 in
  ((if (n =? 224) then 160 else if (n =? 240) then 144 else 128) <=? n1)%N
  && (n1 <=? (if (n =? 237) then 159 else if (n =? 244) then 143 else 191))%N.

(** UTF-8 decode: a sequence of bytes that is no character, cut where it
    stops being the beginning of one, becomes U+FFFD; the byte that cut it
    is read again. *)
Fixpoint utf8_decode (s : string) : string :=
  match s with
  | EmptyString => EmptyString
  | String c r =>
      let n := code c in
      if (n <? 128)%N then String c (utf8_decode r)
      else if ((194 <=? n) && (n <=? 223))%N then
        match r with
        | String c1 r1 =>
            if continuation c1 then String c (String c1 (utf8_decode r1))
            else REPLACEMENT ++ utf8_decode r
        | EmptyString => REPLACEMENT
        end
      else if ((224 <=? n) && (n <=? 239))%N then
        match r with
        | String c1 r1 =>
            if second_byte c c1 then
              match r1 with
              | String c2 r2 =>
                  if continuation c2
                  then String c (String c1 (String c2 (utf8_decode r2)))
                  else REPLACEMENT ++ utf8_decode r1
              | EmptyString => REPLACEMENT
              end
            else REPLACEMENT ++ utf8_decode r
        | EmptyString => REPLACEMENT
        end
      else if ((240 <=? n) && (n <=? 244))%N then
        match r with
        | String c1 r1 =>
            if second_byte c c1 then
              match r1 with
              | String c2 r2 =>
                  if continuation c2 then
                    match r2 with
                    | String c3 r3 =>
                        if continuation c3
                        then String c (String c1 (String c2 (String c3 (utf8_decode r3))))
                        else REPLACEMENT ++ utf8_decode r2
                    | EmptyString => REPLACEMENT
                    end
                  else REPLACEMENT ++ utf8_decode r1
              | EmptyString => REPLACEMENT
              end
            else REPLACEMENT ++ utf8_decode r
        | EmptyString => REPLACEMENT
        end
      else REPLACEMENT ++ utf8_decode r
  end.

(** A name or a value as the parser reads it. *)
Definition urldecode (s : string) : string :=
  utf8_decode (percent_decode (plus_to_space s)).

(** The urlencoded parser: empty pieces are skipped, a piece without [=]
    has the empty value. *)
Definition urlencoded_parse (query : string) : list (string * string) :=
  map (fun piece => let '(n, v) := break_at "=" piece in (urldecode n, urldecode v))
      (filter truthy_string (split_on "&" query)).

(** ** new URL(url).searchParams *)

(** Of the URL parser only what decides the query is kept: the string
    is converted to scalar values, leading and trailing C0 controls and
    spaces are dropped, tabs and newlines are removed, the fragment is
    cut off, and the query is what follows the first [?]. The escaping
    the parser applies inside the query is undone by the urlencoded
    parser and is left out. The parser's rejection of a
    string that is no absolute URL (a TypeError) is outside the model: a
    [url] is taken to be one. *)
Definition c0_or_space (c : ascii) : bool := (code c <=? 32)%N.
Definition tab_or_newline (c : ascii) : bool :=
  let n := code c in ((n =? 9) || (n =? 10) || (n =? 13))%N.

Fixpoint trim_start (s : string) : string :=
  match s with
  | String c r => if c0_or_space c then trim_start r else s
  | EmptyString => s
  end.

Fixpoint trim_end (s : string) : string :=
  match s with
  | String c r =>
      match trim_end r with
      | EmptyString => if c0_or_space c then EmptyString else String c EmptyString
      | r' => String c r'
      end
  | EmptyString => s
  end.

Fixpoint remove_tab_newline (s : string) : string :=
  match s with
  | String c r =>
      if tab_or_newline c then remove_tab_newline r
      else String c (remove_tab_newline r)
  | EmptyString => s
  end.

Definition URL_query (url : string) : string :=
  let u := remove_tab_newline (trim_end (trim_start (toUSV url))) in
  snd (break_at "?" (fst (break_at "#" u))).

Definition URL_searchParams (url : string) : list (string * string) :=
  urlencoded_parse (URL_query url).

End JS.

Import JS.

(* ===================================================================== *)
(** * utils/api-types.ts *)
(* ===================================================================== *)

(** API-level parameters (query params sent to regions_tree.php):
    an object whose properties are among [geo_id], [cat_id], [meta_code],
    [summary], [country], [country_id]. *)
Definition SearchAPIParams : Type := obj value.

(** UI-level parameters; [None] is a property left out or [undefined]. *)
Record SearchParameters : Type := {
  category : option string;
  location : option string;
  keyword : option string
}.

Record CategoryMapping : Type := {
  cm_label : string;
  cm_cat_id : Z;
  cm_meta_code : string
}.

Record LocationMapping : Type := {
  lm_label : string;
  lm_geo_id : Z
}.

Record RequestValidation : Type := {
  matched : bool;
  actualParams : SearchAPIParams;
  expectedParams : SearchAPIParams;
  differences : option (list string)
}.

(* ===================================================================== *)
(** * utils/api-helpers.ts *)
(* ===================================================================== *)

Definition SEARCH_API_URL : string :=
  "https://search.vivastreet.co.uk/ajax/regions_tree.php".

(** Default API parameters included in all requests *)
Definition DEFAULT_API_PARAMS : SearchAPIParams :=
  [ ("summary", VNumber (Int 1));
    ("country", VString "GB");
    ("country_id", VString "GB") ].

(** The pairs [Object.entries(mergedParams).forEach] appends: every
    property whose value is neither [undefined] nor [null]. *)
Fixpoint appended (entries : list (string * value)) : list (string * string) :=
  match entries with
  | [] => []
  | (key, VUndefined) :: r => appended r
  | (key, VNull) :: r => appended r
  | (key, v) :: r => (key, String_ v) :: appended r
  end.

Definition mergedParams (params : SearchAPIParams) : SearchAPIParams :=
  spread (spread [] DEFAULT_API_PARAMS) params.

Definition buildSearchAPIUrl (params : SearchAPIParams) : string :=
  SEARCH_API_URL ++ "?" ++ URLSearchParams_toString (appended (mergedParams params)).

(** [urlObj.searchParams.forEach((value, key) => params[key] = value)] *)
Definition parseQueryParams (url : string) : obj string :=
  fold_left (fun params kv => assign (fst kv) (snd kv) params)
            (URL_searchParams url) [].

(** [if (params.k) result.k = convert(params.k)] *)
Definition copy_if_truthy (params : obj string) (k : string)
    (convert : string -> value) (result : SearchAPIParams) : SearchAPIParams :=
  match get params k with
  | Some s => if truthy_string s then set k (convert s) result else result
  | None => result
  end.

Definition parseInt10 (s : string) : value := VNumber (parseInt s).

Definition toSearchAPIParams (params : obj string) : SearchAPIParams :=
  let result := [] in
  let result := copy_if_truthy params "geo_id" parseInt10 result in
  let result := copy_if_truthy params "cat_id" parseInt10 result in
  let result := copy_if_truthy params "meta_code" VString result in
  let result := copy_if_truthy params "summary" parseInt10 result in
  let result := copy_if_truthy params "country" VString result in
  let result := copy_if_truthy params "country_id" VString result in
  result.

(** The spec's [buildUrl] and [parseUrl]. *)
Definition buildUrl : SearchAPIParams -> string := buildSearchAPIUrl.
Definition parseUrl (url : string) : SearchAPIParams :=
  toSearchAPIParams (parseQueryParams url).

(* ===================================================================== *)
(** * api/mappings/category-mappings.ts, api/mappings/location-mappings.ts *)
(* ===================================================================== *)

Definition CATEGORY_MAPPINGS : obj CategoryMapping :=
  [ ("Home Appliances",
     {| cm_label := "Home Appliances"; cm_cat_id := 93;
        cm_meta_code := "appliances_furniture" |});
    ("Escorts and Massages",
     {| cm_label := "Escorts and Massages"; cm_cat_id := 88;
        cm_meta_code := "adult_services" |}) ].

Definition getCategoryMapping (categoryLabel : string) : slot CategoryMapping :=
  lookup CATEGORY_MAPPINGS categoryLabel.

Definition LOCATION_MAPPINGS : obj LocationMapping :=
  [ ("London", {| lm_label := "London"; lm_geo_id := 7 |});
    (EmptyString, {| lm_label := EmptyString; lm_geo_id := 0 |}) ].

Definition getLocationMapping (locationLabel : string) : slot LocationMapping :=
  lookup LOCATION_MAPPINGS locationLabel.

(** The accessors [TABLE[label]?.field]: the field of an entry,
    [undefined] when the label has no entry (an inherited member has no
    such field either). *)
Definition getCategoryId (categoryLabel : string) : value :=
  match lookup CATEGORY_MAPPINGS categoryLabel with
  | Own m => VNumber (Int (cm_cat_id m))
  | Inherited _ => VUndefined
  | Missing => VUndefined
  end.

Definition getMetaCode (categoryLabel : string) : value :=
  match lookup CATEGORY_MAPPINGS categoryLabel with
  | Own m => VString (cm_meta_code m)
  | Inherited _ => VUndefined
  | Missing => VUndefined
  end.

Definition getGeoId (locationLabel : string) : value :=
  match lookup LOCATION_MAPPINGS locationLabel with
  | Own m => VNumber (Int (lm_geo_id m))
  | Inherited _ => VUndefined
  | Missing => VUndefined
  end.

(* ===================================================================== *)
(** * Exceptions and the monad of the helper methods *)
(* ===================================================================== *)

Inductive exception : Type :=
| Error (message : string)   (* [throw new Error(message)] *)
| ExpectFailed.              (* a failed [expect(...)] assertion *)

Definition result (A : Type) : Type := (exception + A)%type.

Definition throw {A} (e : exception) : result A := inl e.
Definition ok {A} (a : A) : result A := inr a.

(* ===================================================================== *)
(** * api/search-api.helper.ts *)
(* ===================================================================== *)

Module SearchAPIHelper.

Definition category_not_found (label : string) : string :=
  "Category mapping not found for: " ++ dq ++ label ++ dq ++ "." ++ nl ++
  "Add mapping to api/mappings/category-mappings.ts" ++ nl ++ nl ++
  "To find the mapping:" ++ nl ++
  "1. Open browser DevTools → Network tab" ++ nl ++
  "2. Select " ++ dq ++ label ++ dq ++ " in UI" ++ nl ++
  "3. Observe request to regions_tree.php" ++ nl ++
  "4. Record cat_id and meta_code parameters".

Definition location_not_found (label : string) : string :=
  "Location mapping not found for: " ++ dq ++ label ++ dq ++ "." ++ nl ++
  "Add mapping to api/mappings/location-mappings.ts" ++ nl ++ nl ++
  "To find the mapping:" ++ nl ++
  "1. Open browser DevTools → Network tab" ++ nl ++
  "2. Select " ++ dq ++ label ++ dq ++ " in UI" ++ nl ++
  "3. Observe request to regions_tree.php" ++ nl ++
  "4. Record geo_id parameter".

(** The category block: entered when [params.category] is truthy. *)
Definition map_category (params : SearchParameters) (apiParams : SearchAPIParams)
  : result SearchAPIParams :=
  match category params with
  | Some label =>
      if truthy_string label then
        match getCategoryMapping label with
        | Missing => throw (Error (category_not_found label))
        | Own categoryMapping =>
            ok (set "meta_code" (VString (cm_meta_code categoryMapping))
                 (set "cat_id" (VNumber (Int (cm_cat_id categoryMapping))) apiParams))
        | Inherited _ =>
            ok (set "meta_code" VUndefined (set "cat_id" VUndefined apiParams))
        end
      else ok apiParams
  | None => ok apiParams
  end.

(** The location block: entered when [params.location !== undefined]. *)
Definition map_location (params : SearchParameters) (apiParams : SearchAPIParams)
  : result SearchAPIParams :=
  match location params with
  | Some label =>
      match getLocationMapping label with
      | Missing => throw (Error (location_not_found label))
      | Own locationMapping =>
          ok (set "geo_id" (VNumber (Int (lm_geo_id locationMapping))) apiParams)
      | Inherited _ => ok (set "geo_id" VUndefined apiParams)
      end
  | None => ok apiParams
  end.

Definition mapToAPIParams (params : SearchParameters) : result SearchAPIParams :=
  match map_category params [] with
  | inl e => inl e
  | inr apiParams => map_location params apiParams
  end.

Definition getAPIParams : SearchParameters -> result SearchAPIParams :=
  mapToAPIParams.

(** The URL [search] requests. *)
Definition search_url (params : SearchParameters) : result string :=
  match mapToAPIParams params with
  | inl e => inl e
  | inr apiParams => ok (buildSearchAPIUrl apiParams)
  end.

End SearchAPIHelper.

(** The spec's [translate]. *)
Definition translate : SearchParameters -> result SearchAPIParams :=
  SearchAPIHelper.mapToAPIParams.

(* ===================================================================== *)
(** * api/search-validator.helper.ts *)
(* ===================================================================== *)

Module SearchValidatorHelper.

(** What the helper reads of a Playwright [Request] and [APIResponse]. *)
Record Request : Type := { request_url : string }.
Record APIResponse : Type := { status : Z; response_url : string }.

(** The mutable state behind a helper: the handlers [page.route] has
    registered for the pattern [SEARCH_API_URL*], and the field
    [interceptedRequest]. *)
Record helper : Type := {
  routes : nat;
  interceptedRequest : option Request
}.

(** A method of the helper: an outcome and the state it leaves. *)
Definition M (A : Type) : Type := helper -> result A * helper.

Definition ret {A} (a : A) : M A := fun h => (ok a, h).
Definition raise {A} (e : exception) : M A := fun h => (throw e, h).
Definition bind {A B} (m : M A) (f : A -> M B) : M B :=
  fun h => match m h with
           | (inl e, h') => (inl e, h')
           | (inr a, h') => f a h'
           end.
Definition lift {A} (r : result A) : M A := fun h => (r, h).
Definition read : M helper := fun h => (ok h, h).
Definition write (h' : helper) : M unit := fun _ => (ok tt, h').

Notation "x <- m ;; k" := (bind m (fun x => k))
  (at level 61, m at next level, right associativity).

(** ** compareParams *)

Definition paramsToCompare : list string := ["cat_id"; "geo_id"; "meta_code"].

Definition difference (key : string) (expectedValue actualValue : value) : string :=
  key ++ ": expected " ++ String_ expectedValue ++ ", got " ++ String_ actualValue.

(** One turn of the loop over [paramsToCompare], on the pair
    [(matched, differences)]. *)
Definition compare_key (actual expected : SearchAPIParams)
    (acc : bool * list string) (key : string) : bool * list string :=
  let actualValue := prop actual key in
  let expectedValue := prop expected key in
  if negb (strict_equal expectedValue VUndefined) then
    if negb (strict_equal actualValue expectedValue) then
      (false, (snd acc ++ [difference key expectedValue actualValue])%list)
    else acc
  else acc.

Definition compareParams (actual expected : SearchAPIParams) : RequestValidation :=
  let loop := fold_left (compare_key actual expected) paramsToCompare (true, []) in
  {| matched := fst loop;
     actualParams := actual;
     expectedParams := expected;
     differences := match snd loop with
                    | [] => None
                    | _ :: _ => Some (snd loop)
                    end |}.

(** ** The error of a mismatch *)

(** [validation.differences?.join('\n  - ') || 'Unknown differences'] *)
Definition differences_text (validation : RequestValidation) : string :=
  match differences validation with
  | Some ds =>
      let joined := join (nl ++ "  - ") ds in
      if truthy_string joined then joined else "Unknown differences"
  | None => "Unknown differences"
  end.

Definition mismatch_message (headline : string) (validation : RequestValidation) : string :=
  headline ++ nl ++
  "  - " ++ differences_text validation ++ nl ++ nl ++
  "Actual params: " ++ JSON_stringify (actualParams validation) ++ nl ++
  "Expected params: " ++ JSON_stringify (expectedParams validation).

Definition response_headline : string :=
  "API request parameters do not match expected values:".
Definition intercepted_headline : string :=
  "Intercepted API request parameters do not match expected values:".

Definition no_request_message : string :=
  "No search API request was intercepted. " ++
  "Make sure startInterception() was called before the UI action.".

(** ** validateResponse *)

(** [expect(response).toBeOK()]: a status in 200..299. *)
Definition toBeOK (response : APIResponse) : result unit :=
  if ((200 <=? status response) && (status response <=? 299))%Z
  then ok tt else throw ExpectFailed.

(** It neither reads nor writes the helper's state. *)
Definition validateResponse (response : APIResponse)
    (expectedParams : SearchParameters) : result unit :=
  match toBeOK response with
  | inl e => inl e
  | inr _ =>
      let requestUrl := response_url response in
      let actualParams := toSearchAPIParams (parseQueryParams requestUrl) in
      match SearchAPIHelper.getAPIParams expectedParams with
      | inl e => inl e
      | inr expectedAPIParams =>
          let validation := compareParams actualParams expectedAPIParams in
          if negb (matched validation)
          then throw (Error (mismatch_message response_headline validation))
          else ok tt
      end
  end.

(** ** The interception session *)

Definition startInterception : M unit :=
  h <- read ;;
  write {| routes := S (routes h); interceptedRequest := None |}.

(** The handler passed to [page.route]: it records the request and lets
    it continue. *)
Definition route_handler (request : Request) : M unit :=
  h <- read ;;
  write {| routes := routes h; interceptedRequest := Some request |}.

(** The glob [SEARCH_API_URL*]: the endpoint followed by any characters
    but [/]. *)
Fixpoint no_slash (s : string) : bool :=
  match s with
  | EmptyString => true
  | String c r => negb (Ascii.eqb c "/") && no_slash r
  end.

Fixpoint strip_prefix (p s : string) : option string :=
  match p, s with
  | EmptyString, _ => Some s
  | String a p', String b s' => if Ascii.eqb a b then strip_prefix p' s' else None
  | String _ _, EmptyString => None
  end.

Definition route_matches (url : string) : bool :=
  match strip_prefix SEARCH_API_URL url with
  | Some rest => no_slash rest
  | None => false
  end.

(** The page issuing a request: a registered handler runs on a match. *)
Definition page_requests (request : Request) : M unit :=
  h <- read ;;
  if (0 <? routes h)%nat && route_matches (request_url request)
  then route_handler request
  else ret tt.

(** [page.unroute(pattern)] drops every handler of the pattern. *)
Definition stopInterception : M unit :=
  write {| routes := 0; interceptedRequest := None |}.

Definition validateInterceptedRequest (expectedParams : SearchParameters) : M unit :=
  h <- read ;;
  match interceptedRequest h with
  | None => raise (Error no_request_message)
  | Some request =>
      let requestUrl := request_url request in
      let actualParams := toSearchAPIParams (parseQueryParams requestUrl) in
      expectedAPIParams <- lift (SearchAPIHelper.getAPIParams expectedParams) ;;
      let validation := compareParams actualParams expectedAPIParams in
      if negb (matched validation)
      then raise (Error (mismatch_message intercepted_headline validation))
      else stopInterception
  end.

(** A fresh helper: nothing registered, nothing captured. *)
Definition idle : helper := {| routes := 0; interceptedRequest := None |}.

End SearchValidatorHelper.

(** The spec's names for the failures of validation. *)
Definition NoInterceptedRequestError : exception :=
  Error SearchValidatorHelper.no_request_message.

(* ===================================================================== *)
(** * pages/searchResults.page.ts: the API validation methods *)
(* ===================================================================== *)

Module SearchResultsPage.

Import SearchValidatorHelper.

(** [searchViaAPI(category, location, keyword)], up to the network: the
    URL [this.searchAPI.search({ category, location, keyword })]
    requests. *)
Definition searchViaAPI (category location keyword : option string) : result string :=
  SearchAPIHelper.search_url
    {| category := category; location := location; keyword := keyword |}.

(** [validateUISearchAPI(category, location)] starts the interception
    and does not look at its arguments. *)
Definition validateUISearchAPI (category location : option string) : M unit :=
  startInterception.

Definition confirmAPIRequest (category location : option string) : M unit :=
  validateInterceptedRequest
    {| category := category; location := location; keyword := None |}.

Definition validateAPIResponse (response : APIResponse)
    (category location : option string) : result unit :=
  validateResponse response
    {| category := category; location := location; keyword := None |}.

(** The four filter toggles ([toggleAdsWithPhotos], [toggleAdsWithVideos],
    [toggleIncall], [toggleOutcall]) on the state of their checkbox:
    [if (isChecked !== state) await checkbox.check()], where [check()]
    leaves the box checked. *)
Definition toggleCheckbox (state : bool) (isChecked : bool) : bool :=
  if negb (Bool.eqb isChecked state) then true else isChecked.

(** [s.endsWith(suffix)] *)
Fixpoint endsWith (s suffix : string) : bool :=
  if String.eqb s suffix then true
  else match s with
       | EmptyString => false
       | String _ r => endsWith r suffix
       end.

(** The field [lastClickedAdId], as [clickSearchResult] sets it from the
    [data-clad-id] attribute of the clicked card:
    [await cladDiv.getAttribute('data-clad-id') || undefined]. *)
Definition clickSearchResult (dataCladId : option string) : option string :=
  match dataCladId with
  | Some id => if truthy_string id then Some id else None
  | None => None
  end.

Definition no_click_message : string :=
  "No ad was clicked. Call clickSearchResult() first.".

(** [verifyOpenedAd()], given the field, the URL of the page and whether
    the element of the ad is visible. *)
Definition verifyOpenedAd (lastClickedAdId : option string) (currentUrl : string)
    (adVisible : bool) : result unit :=
  match lastClickedAdId with
  | None => throw (Error no_click_message)
  | Some id =>
      if truthy_string id then
        let expectedUrlEnding := "/" ++ id in
        if endsWith currentUrl expectedUrlEnding then
          if adVisible then ok tt else throw ExpectFailed
        else throw ExpectFailed
      else throw (Error no_click_message)
  end.

End SearchResultsPage.

(* ===================================================================== *)
(** * Runs of the interception session *)
(* ===================================================================== *)

(** What can happen to a helper: its three methods are called, or the
    page issues a request. *)
Inductive event : Type :=
| Start
| Stop
| Requests (request : SearchValidatorHelper.Request)
| Validate (expectedParams : SearchParameters).

Definition after_event (h : SearchValidatorHelper.helper) (e : event)
  : SearchValidatorHelper.helper :=
  match e with
  | Start => snd (SearchValidatorHelper.startInterception h)
  | Stop => snd (SearchValidatorHelper.stopInterception h)
  | Requests request => snd (SearchValidatorHelper.page_requests request h)
  | Validate expectedParams =>
      snd (SearchValidatorHelper.validateInterceptedRequest expectedParams h)
  end.

Definition after_events (h : SearchValidatorHelper.helper) (es : list event)
  : SearchValidatorHelper.helper :=
  fold_left after_event es h.

(* ===================================================================== *)
(** * Vocabulary of the properties *)
(* ===================================================================== *)

Import SearchValidatorHelper.

(** [key] is reported: the expected set defines it and the actual value
    is not strictly equal. *)
Definition mismatch (actual expected : SearchAPIParams) (key : string) : bool :=
  negb (strict_equal (prop expected key) VUndefined)
  && negb (strict_equal (prop actual key) (prop expected key)).

(** The line reported for [key]. *)
Definition difference_at (actual expected : SearchAPIParams) (key : string) : string :=
  difference key (prop expected key) (prop actual key).

(** The fields of [SearchAPIParams], by the type of their values. *)
Definition integer_fields : list string := ["geo_id"; "cat_id"; "summary"].

Definition string_fields : list string := ["meta_code"; "country"; "country_id"].

Definition recognized_fields : list string := (integer_fields ++ string_fields)%list.

(** What [toSearchAPIParams] makes of the raw value of one field. *)
Definition decoded (params : obj string) (k : string) (convert : string -> value)
  : option value :=
  match get params k with
  | Some (String c r) => Some (convert (String c r))
  | Some EmptyString => None
  | None => None
  end.

(** [s] begins with a decimal digit. *)
Definition first_digit (s : string) : bool :=
  match s with
  | String c _ => is_digit c
  | EmptyString => false
  end.

(** [s] begins, after white space and an optional sign, with a decimal
    digit. *)
Definition begins_with_integer (s : string) : bool :=
  let s1 := skip_white s in
  first_digit
    match s1 with
    | String "-" r => r
    | String "+" r => r
    | _ => s1
    end.

(** A first byte that neither is white space nor starts a multi-byte
    white-space character. *)
Definition white_lead (c : ascii) : bool :=
  let n := code c in
  ((9 <=? n) && (n <=? 13) || (n =? 32) || (n =? 194) || (n =? 225)
   || (n =? 226) || (n =? 227) || (n =? 239))%N.

(** An ASCII letter. *)
Definition is_letter (c : ascii) : bool :=
  let n := code c in
  ((65 <=? n) && (n <=? 90) || (97 <=? n) && (n <=? 122))%N.

(** Every byte of [s] satisfies [p]. *)
Fixpoint all_chars (p : ascii -> bool) (s : string) : bool :=
  match s with
  | EmptyString => true
  | String c r => p c && all_chars p r
  end.

(** The bytes a serialized name or value is made of. *)
Definition encoded_char (c : ascii) : bool :=
  urlencoded_plain c || Ascii.eqb c "+" || Ascii.eqb c "%".

(** A byte other than [sep]. *)
Definition is_not (sep : ascii) (c : ascii) : bool := negb (Ascii.eqb c sep).

(** The serialized form of one pair, and what the parser makes of it. *)
Definition pair_text (nv : string * string) : string :=
  urlencode (fst nv) ++ "=" ++ urlencode (snd nv).

(** The bytes a serialized query is made of. *)
Definition query_char (c : ascii) : bool :=
  encoded_char c || Ascii.eqb c "&" || Ascii.eqb c "=".

(** A byte the URL parser neither trims, removes nor takes for the start
    of the fragment. *)
Definition kept_char (c : ascii) : bool := negb (c0_or_space c) && is_not "#" c.

(** What [String(value)] is appended for a property, if any. *)
Definition appended_value (v : option value) : option string :=
  match v with
  | None | Some VUndefined | Some VNull => None
  | Some v => Some (String_ v)
  end.

(** [k] is one of [l]. *)
Definition mem (k : string) (l : list string) : bool := existsb (String.eqb k) l.

(** A string of characters: UTF-8 without overlong forms, surrogates or
    anything beyond U+10FFFF. *)
Fixpoint utf8_valid (s : string) : bool :=
  match s with
  | EmptyString => true
  | String c r =>
      let n := code c in
      if (n <? 128)%N then utf8_valid r
      else if ((194 <=? n) && (n <=? 223))%N then
        match r with
        | String c1 r1 => continuation c1 && utf8_valid r1
        | _ => false
        end
      else if ((224 <=? n) && (n <=? 239))%N then
        match r with
        | String c1 (String c2 r2) =>
            second_byte c c1 && continuation c2 && utf8_valid r2
        | _ => false
        end
      else if ((240 <=? n) && (n <=? 244))%N then
        match r with
        | String c1 (String c2 (String c3 r3)) =>
            second_byte c c1 && continuation c2 && continuation c3 && utf8_valid r3
        | _ => false
        end
      else false
  end.

(** [c] followed by [c1] begins a surrogate. *)
Definition surrogate_lead (c c1 : ascii) : bool :=
  ((code c =? 237) && (160 <=? code c1) && (code c1 <=? 191))%N.

(** No surrogate begins anywhere in [s]. *)
Fixpoint no_surrogate (s : string) : bool :=
  match s with
  | EmptyString => true
  | String c r =>
      match r with
      | String c1 _ => negb (surrogate_lead c c1)
      | EmptyString => true
      end && no_surrogate r
  end.

(** The string of one surrogate, U+D800, without its partner. *)
Definition lone_surrogate : string :=
  String (ascii_of_N 237) (String (ascii_of_N 160) (String (ascii_of_N 128) EmptyString)).

(** What a name or a value is once it has been serialized into a URL and
    parsed out of it. *)
Definition through_url (s : string) : string := utf8_decode (toUSV s).

Definition through_url_pair (nv : string * string) : string * string :=
  (through_url (fst nv), through_url (snd nv)).

(** A byte of ASCII. *)
Definition is_ascii (c : ascii) : bool := (code c <? 128)%N.

(** A value of the type [SearchAPIParams] gives the field [k]: an integer
    for an integer field, a string for a string field, or [undefined]. *)
Definition typed_value (k : string) (v : value) : bool :=
  match v with
  | VUndefined => mem k recognized_fields
  | VNumber (Int z) => mem k integer_fields && is_double z
  | VString _ => mem k string_fields
  | VNumber NaN | VNumber (Infinity _) | VNull => false
  end.

(** The same, an integer being moreover of magnitude below [10^21] and a
    string non-empty and a string of characters. *)
Definition valid_value (k : string) (v : value) : bool :=
  match v with
  | VNumber (Int z) => typed_value k v && (Z.abs z <? 10 ^ 21)%Z
  | VString s => typed_value k v && truthy_string s && utf8_valid s
  | _ => typed_value k v
  end.

(** Every property of [p] is a field of the type, respectively a field
    with a valid value. *)
Definition typed_params (p : SearchAPIParams) : bool :=
  forallb (fun kv => typed_value (fst kv) (snd kv)) p.

Definition valid_params (p : SearchAPIParams) : bool :=
  forallb (fun kv => valid_value (fst kv) (snd kv)) p.

(** [needle] occurs in [text]. *)
Definition occurs_in (needle text : string) : Prop :=
  exists before after, text = before ++ needle ++ after.

(** A helper with one handler registered and the request for [url]
    captured. *)
Definition armed_with (url : string) : helper :=
  {| routes := 1; interceptedRequest := Some {| request_url := url |} |}.

(** The fields [toSearchAPIParams] copies, in the order of its
    statements, each with its conversion. *)
Definition field_converters : list (string * (string -> value)) :=
  [ ("geo_id", parseInt10); ("cat_id", parseInt10); ("meta_code", VString);
    ("summary", parseInt10); ("country", VString); ("country_id", VString) ].

(** The raw parameters give [k] a non-empty value. *)
Definition raw_truthy (params : obj string) (k : string) : bool :=
  match get params k with
  | Some (String _ _) => true
  | _ => false
  end.

(** What a helper holds when it holds a captured request. *)
Definition capture_sound (h : helper) : Prop :=
  forall r, interceptedRequest h = Some r ->
    (0 < routes h)%nat /\ route_matches (request_url r) = true.

(** The last of [requests] that the endpoint's pattern matches. *)
Definition last_matching (requests : list Request) : option Request :=
  find (fun r => route_matches (request_url r)) (rev requests).

(* ===================================================================== *)
(** * Properties *)
(* ===================================================================== *)

(** ** Objects *)

Section Objects.

Context {V : Type}.
Implicit Types (o : obj V) (k : string) (v : V).

Lemma get_set o k v k' :
  get (set k v o) k' = if String.eqb k k' then Some v else get o k'.
Proof.
  induction o as [| [k0 v0] r IH]; simpl.
  - reflexivity.
  - destruct (String.eqb k0 k) eqn:E0; simpl.
    + apply String.eqb_eq in E0. subst k0.
      destruct (String.eqb k k'); reflexivity.
    + rewrite IH. destruct (String.eqb k0 k') eqn:E1; [| reflexivity].
      apply String.eqb_eq in E1. subst k0.
      rewrite String.eqb_sym, E0. reflexivity.
Qed.

Lemma get_set_same o k v : get (set k v o) k = Some v.
Proof. rewrite get_set, String.eqb_refl. reflexivity. Qed.

Lemma get_In o k v : get o k = Some v -> In (k, v) o.
Proof.
  induction o as [| [k0 v0] r IH]; simpl; [discriminate |].
  destruct (String.eqb k0 k) eqn:E.
  - apply String.eqb_eq in E. intros [= <-]. subst. now left.
  - intros H. right. now apply IH.
Qed.

Lemma get_None_notin o k : get o k = None <-> ~ In k (keys o).
Proof.
  induction o as [| [k0 v0] r IH]; simpl.
  - firstorder.
  - destruct (String.eqb k0 k) eqn:E.
    + apply String.eqb_eq in E. split; [discriminate | intros H; exfalso; auto].
    + apply String.eqb_neq in E. rewrite IH. intuition.
Qed.

Lemma In_get_NoDup o k v : NoDup (keys o) -> In (k, v) o -> get o k = Some v.
Proof.
  induction o as [| [k0 v0] r IH]; simpl; [intros _ [] |].
  intros Hnd [H | H].
  - injection H as -> ->. now rewrite String.eqb_refl.
  - inversion Hnd as [| ? ? Hnotin Hnd']; subst.
    destruct (String.eqb k0 k) eqn:E.
    + apply String.eqb_eq in E. subst k0. exfalso. apply Hnotin.
      change k with (fst (k, v)). now apply in_map.
    + now apply IH.
Qed.

(** Spreading [source] over [target]: a property of [source] wins, any
    other keeps the value [target] gave it. *)
Lemma get_spread (target source : obj V) k :
  NoDup (keys source) ->
  get (spread target source) k =
  match get source k with
  | Some v => Some v
  | None => get target k
  end.
Proof.
  unfold spread. revert target.
  induction source as [| [k0 v0] r IH]; intros target Hnd; simpl.
  - reflexivity.
  - inversion Hnd as [| ? ? Hnotin Hnd']; subst.
    rewrite (IH _ Hnd'). destruct (String.eqb k0 k) eqn:E.
    + apply String.eqb_eq in E. subst k0.
      apply get_None_notin in Hnotin. rewrite Hnotin. apply get_set_same.
    + destruct (get r k); [reflexivity |]. now rewrite get_set, E.
Qed.

End Objects.

(** ** Strict equality *)

Lemma strict_equal_undefined (v : value) :
  strict_equal v VUndefined = true <-> v = VUndefined.
Proof. destruct v as [| | [| |] |]; simpl; split; congruence. Qed.

(** [===] is equality, except that [NaN] equals nothing. *)
Lemma strict_equal_spec (a b : value) :
  strict_equal a b = true <-> a = b /\ b <> VNumber NaN.
Proof.
  destruct a as [| | [| x | x] | s], b as [| | [| y | y] | t]; simpl;
    try (split; [discriminate | intros [H _]; discriminate H]);
    try (split; [intros _; split; [reflexivity | discriminate] | reflexivity]).
  - split; [discriminate | intros [_ H]; now elim H].
  - rewrite Z.eqb_eq. split.
    + intros ->. split; [reflexivity | discriminate].
    + now intros [[= ->] _].
  - rewrite Bool.eqb_true_iff. split.
    + intros ->. split; [reflexivity | discriminate].
    + now intros [[= ->] _].
  - rewrite String.eqb_eq. split.
    + intros ->. split; [reflexivity | discriminate].
    + now intros [[= ->] _].
Qed.

(** ** The comparison loop *)

Lemma compare_loop (actual expected : SearchAPIParams) (ks : list string) m ds :
  fold_left (compare_key actual expected) ks (m, ds) =
  (m && forallb (fun key => negb (mismatch actual expected key)) ks,
   (ds ++ map (difference_at actual expected) (filter (mismatch actual expected) ks))%list).
Proof.
  revert m ds. induction ks as [| key ks IH]; intros m ds; simpl.
  - now rewrite andb_true_r, app_nil_r.
  - unfold compare_key at 2, mismatch at 1 3.
    destruct (strict_equal (prop expected key) VUndefined); simpl.
    + apply IH.
    + destruct (strict_equal (prop actual key) (prop expected key)); simpl.
      * apply IH.
      * rewrite IH. simpl. rewrite andb_false_r, <- app_assoc. reflexivity.
Qed.

Lemma compareParams_matched (actual expected : SearchAPIParams) :
  matched (compareParams actual expected) =
  forallb (fun key => negb (mismatch actual expected key)) paramsToCompare.
Proof.
  unfold compareParams. rewrite compare_loop.
  reflexivity.
Qed.

Lemma compareParams_differences (actual expected : SearchAPIParams) :
  differences (compareParams actual expected) =
  match filter (mismatch actual expected) paramsToCompare with
  | [] => None
  | ks => Some (map (difference_at actual expected) ks)
  end.
Proof.
  unfold compareParams. rewrite compare_loop. rewrite app_nil_l.
  destruct (filter (mismatch actual expected) paramsToCompare); reflexivity.
Qed.

Lemma mismatch_false (actual expected : SearchAPIParams) (key : string) :
  mismatch actual expected key = false <->
  (prop expected key <> VUndefined ->
   strict_equal (prop actual key) (prop expected key) = true).
Proof.
  unfold mismatch. rewrite andb_false_iff, !negb_false_iff, strict_equal_undefined.
  split.
  - intros [H | H] Hdef; [contradiction | exact H].
  - intros H. destruct (prop expected key) eqn:E; auto; right; apply H; discriminate.
Qed.

Lemma mismatch_agree (a a' e e' : SearchAPIParams) (key : string) :
  prop a' key = prop a key -> prop e' key = prop e key ->
  mismatch a' e' key = mismatch a e key.
Proof. unfold mismatch. now intros -> ->. Qed.

(** A request without location translates to a set without [geo_id]. *)
Lemma translate_without_location (ui : SearchParameters) (expected : SearchAPIParams) :
  location ui = None -> translate ui = ok expected ->
  prop expected "geo_id" = VUndefined.
Proof.
  unfold translate, SearchAPIHelper.mapToAPIParams, SearchAPIHelper.map_category,
    SearchAPIHelper.map_location, ok, throw.
  intros ->. destruct (category ui) as [[| c r] |]; cbn [truthy_string].
  - now intros [= <-].
  - destruct (getCategoryMapping (String c r)) as [m | name |].
    + now intros [= <-].
    + now intros [= <-].
    + discriminate.
  - now intros [= <-].
Qed.

(** C2. The comparison looks at [cat_id], [geo_id] and [meta_code] only:
    it reports a match exactly when each of the three that the expected
    set defines is strictly equal ([===]) in the actual set, which is
    plain equality as soon as the expected value is not [NaN]; a field the
    expected set leaves undefined constrains nothing, so an expectation
    without [geo_id] (such as the translation of a request without
    location) matches whatever [geo_id] the request carries; and two
    comparisons that agree on the three fields agree on the verdict,
    whatever [summary], [country] and [country_id] hold. *)
Theorem C2_compare_restricted_fields (actual expected : SearchAPIParams) :
  (matched (compareParams actual expected) = true <->
   forall key, In key ["cat_id"; "geo_id"; "meta_code"] ->
     prop expected key <> VUndefined ->
     strict_equal (prop actual key) (prop expected key) = true)
  /\ ((forall key, prop expected key <> VNumber NaN) ->
      (matched (compareParams actual expected) = true <->
       forall key, In key ["cat_id"; "geo_id"; "meta_code"] ->
         prop expected key <> VUndefined ->
         prop actual key = prop expected key))
  /\ (forall actual' expected' : SearchAPIParams,
        (forall key, In key ["cat_id"; "geo_id"; "meta_code"] ->
           prop actual' key = prop actual key /\
           prop expected' key = prop expected key) ->
        matched (compareParams actual' expected') =
        matched (compareParams actual expected))
  /\ (prop expected "geo_id" = VUndefined ->
      forall v : value,
        matched (compareParams (set "geo_id" v actual) expected) =
        matched (compareParams actual expected))
  /\ (forall (key : string) (v w : value),
        In key ["summary"; "country"; "country_id"] ->
        matched (compareParams (set key v actual) (set key w expected)) =
        matched (compareParams actual expected))
  /\ (forall (ui : SearchParameters) (v : value),
        location ui = None -> translate ui = ok expected ->
        matched (compareParams (set "geo_id" v actual) expected) =
        matched (compareParams actual expected)).
Proof.
  assert (Hpartial : prop expected "geo_id" = VUndefined ->
            forall v : value,
              matched (compareParams (set "geo_id" v actual) expected) =
              matched (compareParams actual expected)).
  { intros Hgeo v. rewrite !compareParams_matched. unfold paramsToCompare. simpl.
    assert (Hg : forall a, mismatch a expected "geo_id" = false).
    { intros a. unfold mismatch. now rewrite Hgeo. }
    rewrite !Hg.
    rewrite !(mismatch_agree actual (set "geo_id" v actual) expected expected);
      try reflexivity; unfold prop; rewrite get_set; reflexivity. }
  assert (Hiff : matched (compareParams actual expected) = true <->
                 forall key, In key ["cat_id"; "geo_id"; "meta_code"] ->
                   prop expected key <> VUndefined ->
                   strict_equal (prop actual key) (prop expected key) = true).
  { rewrite compareParams_matched, forallb_forall. unfold paramsToCompare.
    split; intros H key Hin.
    - apply mismatch_false. specialize (H key Hin).
      now apply negb_true_iff in H.
    - apply negb_true_iff, mismatch_false. now apply H. }
  split; [exact Hiff |]. split; [| split; [| split; [exact Hpartial | split]]].
  - intros Hnan. rewrite Hiff. split; intros H key Hin Hdef.
    + specialize (H key Hin Hdef). now apply strict_equal_spec in H.
    + apply strict_equal_spec. split; [now apply H | apply Hnan].
  - intros actual' expected' H. rewrite !compareParams_matched.
    unfold paramsToCompare. simpl.
    rewrite !(mismatch_agree actual actual' expected expected');
      try reflexivity; apply H; simpl; auto.
  - intros key v w Hin. rewrite !compareParams_matched. unfold paramsToCompare.
    simpl.
    rewrite !(mismatch_agree actual (set key v actual) expected (set key w expected));
      try reflexivity; unfold prop; rewrite get_set;
      destruct Hin as [<- | [<- | [<- | []]]]; reflexivity.
  - intros ui v Hloc Hui. apply Hpartial.
    exact (translate_without_location ui expected Hloc Hui).
Qed.

(** A run of the comparison with only the category expected: the request
    carries [geo_id=7], the verdict is a match. *)
Lemma C2_compare_restricted_fields_witness :
  matched (compareParams
             (set "geo_id" (VNumber (Int 7))
                [("cat_id", VNumber (Int 88)); ("meta_code", VString "adult_services")])
             [("cat_id", VNumber (Int 88)); ("meta_code", VString "adult_services")])
  = true.
Proof.
  destruct (C2_compare_restricted_fields
              [("cat_id", VNumber (Int 88)); ("meta_code", VString "adult_services")]
              [("cat_id", VNumber (Int 88)); ("meta_code", VString "adult_services")])
    as (_ & _ & _ & _ & _ & H).
  rewrite (H {| category := Some "Escorts and Massages"; location := None;
                keyword := None |} (VNumber (Int 7)) eq_refl eq_refl).
  reflexivity.
Defined.

(** ** The report of a mismatch *)

Lemma truthy_app_l (a b : string) : truthy_string a = true -> truthy_string (a ++ b) = true.
Proof. destruct a; [discriminate | reflexivity]. Qed.

Lemma truthy_app_r (a b : string) : truthy_string b = true -> truthy_string (a ++ b) = true.
Proof. destruct a; [trivial | reflexivity]. Qed.

Lemma difference_truthy (key : string) (e a : value) :
  truthy_string (difference key e a) = true.
Proof. unfold difference. apply truthy_app_r. reflexivity. Qed.

Lemma join_truthy (sep x : string) (r : list string) :
  truthy_string x = true -> truthy_string (join sep (x :: r)) = true.
Proof.
  intros H. destruct r; simpl; [exact H | now apply truthy_app_l].
Qed.

Lemma differences_nonempty (actual expected : SearchAPIParams) (ds : list string) :
  differences (compareParams actual expected) = Some ds ->
  exists key ks, ds = (difference_at actual expected key
                       :: map (difference_at actual expected) ks)%list.
Proof.
  rewrite compareParams_differences.
  destruct (filter (mismatch actual expected) paramsToCompare) as [| key ks];
    [discriminate |].
  intros [= <-]. now exists key, ks.
Qed.

Lemma differences_text_join (actual expected : SearchAPIParams) (ds : list string) :
  differences (compareParams actual expected) = Some ds ->
  differences_text (compareParams actual expected) = join (nl ++ "  - ") ds.
Proof.
  intros H. unfold differences_text. rewrite H.
  destruct (differences_nonempty _ _ _ H) as (key & ks & ->).
  rewrite join_truthy; [reflexivity | apply difference_truthy].
Qed.

Lemma matched_differences (actual expected : SearchAPIParams) :
  matched (compareParams actual expected) = true <->
  differences (compareParams actual expected) = None.
Proof.
  rewrite compareParams_matched, compareParams_differences.
  generalize paramsToCompare as ks. induction ks as [| key ks IH]; simpl.
  - tauto.
  - destruct (mismatch actual expected key); simpl.
    + split; discriminate.
    + exact IH.
Qed.

(** The method, with the monad unfolded. *)
Lemma validateInterceptedRequest_cases (ui : SearchParameters) (h : helper) :
  validateInterceptedRequest ui h =
  match interceptedRequest h with
  | None => (throw (Error no_request_message), h)
  | Some request =>
      match SearchAPIHelper.getAPIParams ui with
      | inl e => (inl e, h)
      | inr expected =>
          let validation := compareParams (parseUrl (request_url request)) expected in
          if matched validation then (ok tt, idle)
          else (throw (Error (mismatch_message intercepted_headline validation)), h)
      end
  end.
Proof.
  unfold validateInterceptedRequest, bind, read, lift, raise, ok, parseUrl.
  cbv beta iota.
  destruct (interceptedRequest h) as [request |]; [| reflexivity].
  destruct (SearchAPIHelper.getAPIParams ui) as [e | expected]; [reflexivity |].
  cbv zeta.
  destruct (matched (compareParams _ expected)); reflexivity.
Qed.

(** C8. In every result of the comparison [differences] is filled exactly
    when [matched] is false; its entries are, for the compared fields
    that the expected set defines and the actual set does not meet, the
    line [<field>: expected <expected value>, got <actual value>] (for
    [geo_id] 7 against an expected 15: [geo_id: expected 15, got 7], the
    spec's [geoId] being the request's [geo_id]); and on a mismatch both
    entry points of validation throw an error whose message lists these
    lines one by one, followed by the whole actual and the whole expected
    parameter set. *)
Theorem C8_differences_report (actual expected : SearchAPIParams) :
  (matched (compareParams actual expected) = false <->
   exists d ds, differences (compareParams actual expected) = Some (d :: ds)%list)
  /\ (matched (compareParams actual expected) = true <->
      differences (compareParams actual expected) = None)
  /\ (forall ds d,
        differences (compareParams actual expected) = Some ds -> In d ds ->
        exists key,
          In key ["cat_id"; "geo_id"; "meta_code"] /\
          d = key ++ ": expected " ++ String_ (prop expected key)
                  ++ ", got " ++ String_ (prop actual key) /\
          prop expected key <> VUndefined /\
          strict_equal (prop actual key) (prop expected key) = false)
  /\ (forall key,
        In key ["cat_id"; "geo_id"; "meta_code"] ->
        prop expected key <> VUndefined ->
        strict_equal (prop actual key) (prop expected key) = false ->
        exists ds,
          differences (compareParams actual expected) = Some ds /\
          In (key ++ ": expected " ++ String_ (prop expected key)
                  ++ ", got " ++ String_ (prop actual key)) ds)
  /\ differences (compareParams [("geo_id", VNumber (Int 7))]
                                [("geo_id", VNumber (Int 15))])
     = Some ["geo_id: expected 15, got 7"]
  /\ (forall (h : helper) (request : Request) (ui : SearchParameters) ds,
        interceptedRequest h = Some request ->
        actual = parseUrl (request_url request) ->
        SearchAPIHelper.getAPIParams ui = ok expected ->
        differences (compareParams actual expected) = Some ds ->
        validateInterceptedRequest ui h =
        (throw (Error
           ("Intercepted API request parameters do not match expected values:"
            ++ nl ++ "  - " ++ join (nl ++ "  - ") ds ++ nl ++ nl
            ++ "Actual params: " ++ JSON_stringify actual ++ nl
            ++ "Expected params: " ++ JSON_stringify expected)), h))
  /\ (forall (response : APIResponse) (ui : SearchParameters) ds,
        toBeOK response = ok tt ->
        actual = parseUrl (response_url response) ->
        SearchAPIHelper.getAPIParams ui = ok expected ->
        differences (compareParams actual expected) = Some ds ->
        validateResponse response ui =
        throw (Error
           ("API request parameters do not match expected values:"
            ++ nl ++ "  - " ++ join (nl ++ "  - ") ds ++ nl ++ nl
            ++ "Actual params: " ++ JSON_stringify actual ++ nl
            ++ "Expected params: " ++ JSON_stringify expected))).
Proof.
  split; [| split; [apply matched_differences | split; [| split; [| split; [reflexivity | split]]]]].
  - split.
    + intros Hm. destruct (differences (compareParams actual expected)) as [ds |] eqn:E.
      * destruct (differences_nonempty _ _ _ E) as (key & ks & ->). eauto.
      * apply matched_differences in E. congruence.
    + intros (d & ds & E). destruct (matched (compareParams actual expected)) eqn:Hm;
        [| reflexivity].
      apply matched_differences in Hm. congruence.
  - intros ds d. rewrite compareParams_differences.
    destruct (filter (mismatch actual expected) paramsToCompare) as [| k0 ks] eqn:E;
      [discriminate |].
    intros [= <-] Hin.
    change (In d (map (difference_at actual expected) (k0 :: ks))) in Hin.
    rewrite <- E in Hin. apply in_map_iff in Hin.
    destruct Hin as (key & <- & Hkey). apply filter_In in Hkey.
    destruct Hkey as [Hkey Hmis]. exists key. split; [exact Hkey |].
    split; [reflexivity |]. unfold mismatch in Hmis.
    apply andb_true_iff in Hmis. destruct Hmis as [H1 H2].
    apply negb_true_iff in H1, H2. split; [| exact H2].
    intros Hu. apply strict_equal_undefined in Hu. congruence.
  - intros key Hkey Hdef Hne.
    assert (Hmis : mismatch actual expected key = true).
    { unfold mismatch. rewrite Hne. simpl. rewrite andb_true_r.
      apply negb_true_iff. destruct (strict_equal (prop expected key) VUndefined) eqn:E;
        [| reflexivity].
      apply strict_equal_undefined in E. contradiction. }
    assert (Hin : In key (filter (mismatch actual expected) paramsToCompare)).
    { apply filter_In. split; [exact Hkey | exact Hmis]. }
    rewrite compareParams_differences.
    destruct (filter (mismatch actual expected) paramsToCompare) as [| k0 ks] eqn:E;
      [destruct Hin |].
    eexists. split; [reflexivity |].
    apply (in_map (difference_at actual expected)) in Hin. exact Hin.
  - intros h request ui ds Hreq -> Hui Hds.
    rewrite validateInterceptedRequest_cases, Hreq, Hui.
    cbv beta iota zeta delta [ok].
    destruct (matched (compareParams (parseUrl (request_url request)) expected)) eqn:Hm.
    + apply matched_differences in Hm. congruence.
    + unfold mismatch_message.
      rewrite (differences_text_join _ _ _ Hds). reflexivity.
  - intros response ui ds Hok -> Hui Hds.
    unfold validateResponse. rewrite Hok, Hui.
    cbv beta iota zeta delta [ok].
    fold (parseUrl (response_url response)).
    destruct (matched (compareParams (parseUrl (response_url response)) expected)) eqn:Hm.
    + apply matched_differences in Hm. congruence.
    + cbv beta iota delta [negb]. unfold mismatch_message.
      rewrite (differences_text_join _ _ _ Hds). reflexivity.
Qed.

(** A mismatch reported through the intercepted request: the message
    holds the line of the differing field and both parameter sets. *)
Lemma C8_differences_report_witness :
  validateInterceptedRequest
    {| category := None; location := Some EmptyString; keyword := None |}
    (armed_with (SEARCH_API_URL ++ "?geo_id=7"))
  = (throw (Error
       ("Intercepted API request parameters do not match expected values:"
        ++ nl ++ "  - geo_id: expected 0, got 7" ++ nl ++ nl
        ++ "Actual params: {" ++ dq ++ "geo_id" ++ dq ++ ":7}" ++ nl
        ++ "Expected params: {" ++ dq ++ "geo_id" ++ dq ++ ":0}")),
     armed_with (SEARCH_API_URL ++ "?geo_id=7")).
Proof.
  destruct (C8_differences_report
              (parseUrl (SEARCH_API_URL ++ "?geo_id=7"))
              [("geo_id", VNumber (Int 0))])
    as (_ & _ & _ & _ & _ & H & _).
  apply (H (armed_with (SEARCH_API_URL ++ "?geo_id=7"))
           {| request_url := SEARCH_API_URL ++ "?geo_id=7" |}
           {| category := None; location := Some EmptyString; keyword := None |}
           ["geo_id: expected 0, got 7"]); reflexivity.
Defined.

(** ** Decoding a query: parseQueryParams and toSearchAPIParams *)

Lemma get_copy_if_truthy (params : obj string) k convert (result : SearchAPIParams) k' :
  get (copy_if_truthy params k convert result) k' =
  if String.eqb k k' then
    match decoded params k convert with
    | Some v => Some v
    | None => get result k'
    end
  else get result k'.
Proof.
  unfold copy_if_truthy, decoded.
  destruct (get params k) as [[| c r] |]; simpl truthy_string; cbv iota.
  - destruct (String.eqb k k'); reflexivity.
  - rewrite get_set. destruct (String.eqb k k'); reflexivity.
  - destruct (String.eqb k k'); reflexivity.
Qed.

Lemma toSearchAPIParams_integer (params : obj string) (k : string) :
  In k integer_fields ->
  get (toSearchAPIParams params) k = decoded params k parseInt10.
Proof.
  intros Hin. unfold toSearchAPIParams. rewrite !get_copy_if_truthy.
  destruct Hin as [<- | [<- | [<- | []]]]; cbn [String.eqb Ascii.eqb Bool.eqb];
    cbv iota; destruct (decoded params _ parseInt10); reflexivity.
Qed.

Lemma toSearchAPIParams_string (params : obj string) (k : string) :
  In k string_fields ->
  get (toSearchAPIParams params) k = decoded params k VString.
Proof.
  intros Hin. unfold toSearchAPIParams. rewrite !get_copy_if_truthy.
  destruct Hin as [<- | [<- | [<- | []]]]; cbn [String.eqb Ascii.eqb Bool.eqb];
    cbv iota; destruct (decoded params _ VString); reflexivity.
Qed.

Lemma toSearchAPIParams_other (params : obj string) (k : string) :
  ~ In k recognized_fields -> get (toSearchAPIParams params) k = None.
Proof.
  intros Hnot. unfold toSearchAPIParams. rewrite !get_copy_if_truthy.
  repeat match goal with
         | |- context [String.eqb ?a k] =>
             let E := fresh "E" in
             destruct (String.eqb a k) eqn:E;
             [ apply String.eqb_eq in E; exfalso; apply Hnot; rewrite <- E;
               unfold recognized_fields, integer_fields, string_fields; simpl; tauto
             | clear E ]
         end.
  reflexivity.
Qed.

(** The result reads the six recognised names and nothing else. *)
Lemma toSearchAPIParams_only_recognized (params params' : obj string) :
  (forall k, In k recognized_fields -> get params k = get params' k) ->
  toSearchAPIParams params = toSearchAPIParams params'.
Proof.
  intros H. unfold toSearchAPIParams, copy_if_truthy.
  rewrite !H by (unfold recognized_fields, integer_fields, string_fields; simpl; tauto).
  reflexivity.
Qed.

Lemma get_app {V} (a b : obj V) (k : string) :
  get (a ++ b)%list k = match get a k with Some v => Some v | None => get b k end.
Proof.
  induction a as [| [k0 v0] r IH]; simpl; [reflexivity |].
  destruct (String.eqb k0 k); [reflexivity | exact IH].
Qed.

(** A key that occurs several times in the query keeps its last value. *)
Lemma get_fold_assign (l : list (string * string)) (o : obj string) (k : string) :
  k <> "__proto__" ->
  get (fold_left (fun params kv => assign (fst kv) (snd kv) params) l o) k =
  match get (rev l) k with
  | Some v => Some v
  | None => get o k
  end.
Proof.
  intros Hk. revert o. induction l as [| [k0 v0] r IH]; intros o; simpl.
  - reflexivity.
  - rewrite IH, get_app. destruct (get (rev r) k); [reflexivity |].
    simpl. unfold assign. destruct (String.eqb k0 "__proto__") eqn:E.
    + apply String.eqb_eq in E. subst k0.
      destruct (String.eqb "__proto__" k) eqn:E'; [| reflexivity].
      apply String.eqb_eq in E'. congruence.
    + rewrite get_set. destruct (String.eqb k0 k); reflexivity.
Qed.

Lemma recognized_not_proto (k : string) : In k recognized_fields -> k <> "__proto__".
Proof.
  unfold recognized_fields, integer_fields, string_fields. simpl.
  intros [<- | [<- | [<- | [<- | [<- | [<- | []]]]]]]; discriminate.
Qed.

Lemma parseQueryParams_get (url : string) (k : string) :
  k <> "__proto__" ->
  get (parseQueryParams url) k = get (rev (URL_searchParams url)) k.
Proof.
  intros Hk. unfold parseQueryParams. rewrite (get_fold_assign _ _ _ Hk).
  destruct (get (rev (URL_searchParams url)) k); reflexivity.
Qed.

Lemma parseUrl_no_empty_string (url : string) (k : string) :
  get (parseUrl url) k <> Some (VString EmptyString).
Proof.
  unfold parseUrl, toSearchAPIParams. rewrite !get_copy_if_truthy.
  unfold decoded, parseInt10.
  repeat match goal with
         | |- context [String.eqb ?a k] => destruct (String.eqb a k)
         | |- context [get (parseQueryParams url) ?a] =>
             destruct (get (parseQueryParams url) a) as [[| ? ?] |]
         end; simpl; discriminate.
Qed.

(** ** parseInt *)

Ltac each_byte c :=
  destruct c as [[] [] [] [] [] [] [] []].

Lemma skip_white_plain (c : ascii) (r : string) :
  white_lead c = false -> skip_white (String c r) = String c r.
Proof.
  intros H. each_byte c; vm_compute in H; try discriminate H;
    destruct r as [| c1 [| c2 r2]]; reflexivity.
Qed.

Lemma parseInt_letter (c : ascii) (r : string) :
  is_letter c = true -> parseInt (String c r) = NaN.
Proof.
  intros H. unfold parseInt. rewrite skip_white_plain.
  - each_byte c; vm_compute in H; try discriminate H; reflexivity.
  - each_byte c; vm_compute in H; try discriminate H; reflexivity.
Qed.

Lemma read_digits_cons (c : ascii) (r : string) (a : Z) :
  is_digit c = true ->
  read_digits (String c r) (Some a) = read_digits r (Some (10 * a + digit_value c)%Z).
Proof.
  intros H.
  change (read_digits (String c r) (Some a))
    with (if is_digit c then read_digits r (Some (10 * a + digit_value c)%Z)
          else Some a).
  now rewrite H.
Qed.

Lemma read_digits_uint (d d' : Decimal.uint) :
  read_digits (NilEmpty.string_of_uint d) (Some (Z.of_N (Unsigned.of_lu d'))) =
  Some (Z.of_N (Unsigned.of_lu (Decimal.revapp d d'))).
Proof.
  revert d'. induction d; intros d'; cbn [NilEmpty.string_of_uint Decimal.revapp];
    [reflexivity | ..];
    rewrite read_digits_cons by reflexivity; rewrite <- IHd; do 2 f_equal;
    cbn [Unsigned.of_lu];
    match goal with
    | |- context [digit_value ?c] =>
        let v := eval vm_compute in (digit_value c) in
        change (digit_value c) with v
    end; lia.
Qed.

Lemma read_digits_start (c : ascii) (r : string) :
  is_digit c = true ->
  read_digits (String c r) None = read_digits (String c r) (Some 0%Z).
Proof.
  intros H.
  change (read_digits (String c r) None)
    with (if is_digit c then read_digits r (Some (10 * 0 + digit_value c)%Z)
          else None).
  now rewrite read_digits_cons, H.
Qed.

Lemma string_of_uint_head (d : Decimal.uint) :
  d <> Decimal.Nil ->
  exists c r, NilEmpty.string_of_uint d = String c r /\ is_digit c = true.
Proof.
  destruct d; intros H; [congruence | ..]; simpl; eexists _, _; split; reflexivity.
Qed.

Lemma is_digit_plain (c : ascii) : is_digit c = true -> white_lead c = false.
Proof. intros H. each_byte c; vm_compute in H; try discriminate H; reflexivity. Qed.

Lemma read_digits_positive (p : positive) :
  read_digits (NilEmpty.string_of_uint (Pos.to_uint p)) None = Some (Z.pos p).
Proof.
  destruct (string_of_uint_head (Pos.to_uint p)) as (c & r & E & Hc).
  { apply Unsigned.to_uint_nonnil. }
  rewrite E, (read_digits_start _ _ Hc), <- E.
  change 0%Z with (Z.of_N (Unsigned.of_lu Decimal.Nil)).
  rewrite read_digits_uint.
  change (Decimal.revapp (Pos.to_uint p) Decimal.Nil) with (Decimal.rev (Pos.to_uint p)).
  rewrite <- Unsigned.of_uint_alt, Unsigned.of_to. reflexivity.
Qed.

Lemma NilZero_positive (p : positive) :
  NilZero.string_of_uint (Pos.to_uint p) = NilEmpty.string_of_uint (Pos.to_uint p).
Proof.
  unfold NilZero.string_of_uint.
  pose proof (Unsigned.to_uint_nonnil p) as H.
  destruct (Pos.to_uint p); [congruence | reflexivity ..].
Qed.

Lemma parseInt_unsigned (s : string) (c : ascii) (r : string) :
  s = String c r -> is_digit c = true ->
  parseInt s = match read_digits s None with Some m => to_double m | None => NaN end.
Proof.
  intros -> Hc. unfold parseInt.
  rewrite (skip_white_plain c r (is_digit_plain c Hc)).
  each_byte c; vm_compute in Hc; try discriminate Hc; reflexivity.
Qed.

Lemma digits_positive (p : positive) :
  digits (Z.pos p) = NilEmpty.string_of_uint (Pos.to_uint p).
Proof. unfold digits. cbn [Z.to_int NilZero.string_of_int]. apply NilZero_positive. Qed.

Lemma digits_negative (p : positive) :
  digits (Z.neg p) = String "-" (NilEmpty.string_of_uint (Pos.to_uint p)).
Proof.
  unfold digits. cbn [Z.to_int NilZero.string_of_int]. now rewrite NilZero_positive.
Qed.

Lemma parseInt_minus (p : positive) :
  parseInt (String "-" (NilEmpty.string_of_uint (Pos.to_uint p))) = to_double (Z.neg p).
Proof.
  unfold parseInt. rewrite skip_white_plain by reflexivity.
  now rewrite read_digits_positive.
Qed.

(** An integer written in decimal digits reads as the nearest double. *)
Lemma parseInt_digits (m : Z) : parseInt (digits m) = to_double m.
Proof.
  destruct m as [| p | p]; [reflexivity | ..].
  - rewrite digits_positive.
    destruct (string_of_uint_head (Pos.to_uint p)) as (c & r & E & Hc).
    { apply Unsigned.to_uint_nonnil. }
    now rewrite (parseInt_unsigned _ c r E Hc), read_digits_positive.
  - rewrite digits_negative. apply parseInt_minus.
Qed.

Lemma read_digits_stop (rest : string) (a : Z) :
  first_digit rest = false -> read_digits rest (Some a) = Some a.
Proof.
  destruct rest as [| c r]; [reflexivity |]. unfold first_digit. intros H.
  change (read_digits (String c r) (Some a))
    with (if is_digit c then read_digits r (Some (10 * a + digit_value c)%Z)
          else Some a).
  now rewrite H.
Qed.

Lemma read_digits_uint_app (d d' : Decimal.uint) (rest : string) :
  read_digits (NilEmpty.string_of_uint d ++ rest) (Some (Z.of_N (Unsigned.of_lu d'))) =
  read_digits rest (Some (Z.of_N (Unsigned.of_lu (Decimal.revapp d d')))).
Proof.
  revert d'. induction d; intros d';
    cbn [NilEmpty.string_of_uint Decimal.revapp append];
    [reflexivity | ..];
    rewrite read_digits_cons by reflexivity; rewrite <- IHd; do 2 f_equal;
    cbn [Unsigned.of_lu];
    match goal with
    | |- context [digit_value ?c] =>
        let v := eval vm_compute in (digit_value c) in
        change (digit_value c) with v
    end; lia.
Qed.

Lemma read_digits_positive_app (p : positive) (rest : string) :
  first_digit rest = false ->
  read_digits (NilEmpty.string_of_uint (Pos.to_uint p) ++ rest) None = Some (Z.pos p).
Proof.
  intros Hrest.
  destruct (string_of_uint_head (Pos.to_uint p)) as (c & r & E & Hc).
  { apply Unsigned.to_uint_nonnil. }
  rewrite E. change (String c r ++ rest) with (String c (r ++ rest)).
  rewrite (read_digits_start _ _ Hc).
  change (String c (r ++ rest)) with (String c r ++ rest). rewrite <- E.
  change 0%Z with (Z.of_N (Unsigned.of_lu Decimal.Nil)).
  rewrite read_digits_uint_app, (read_digits_stop _ _ Hrest).
  change (Decimal.revapp (Pos.to_uint p) Decimal.Nil) with (Decimal.rev (Pos.to_uint p)).
  rewrite <- Unsigned.of_uint_alt, Unsigned.of_to. reflexivity.
Qed.

(** What follows the digits of an integer is skipped. *)
Lemma parseInt_digits_app (m : Z) (rest : string) :
  first_digit rest = false -> parseInt (digits m ++ rest) = to_double m.
Proof.
  intros Hrest. destruct m as [| p | p].
  - change (digits 0 ++ rest) with (String "0" rest).
    rewrite (parseInt_unsigned _ "0" rest eq_refl eq_refl).
    rewrite (read_digits_start _ _ (eq_refl : is_digit "0" = true)).
    rewrite read_digits_cons by reflexivity.
    now rewrite (read_digits_stop _ _ Hrest).
  - rewrite digits_positive.
    destruct (string_of_uint_head (Pos.to_uint p)) as (c & r & E & Hc).
    { apply Unsigned.to_uint_nonnil. }
    assert (E' : NilEmpty.string_of_uint (Pos.to_uint p) ++ rest = String c (r ++ rest))
      by now rewrite E.
    rewrite (parseInt_unsigned _ c (r ++ rest) E' Hc).
    now rewrite (read_digits_positive_app _ _ Hrest).
  - rewrite digits_negative.
    change (String "-" (NilEmpty.string_of_uint (Pos.to_uint p)) ++ rest)
      with (String "-" (NilEmpty.string_of_uint (Pos.to_uint p) ++ rest)).
    unfold parseInt. rewrite skip_white_plain by reflexivity.
    now rewrite (read_digits_positive_app _ _ Hrest).
Qed.

Lemma digits_truthy (m : Z) : truthy_string (digits m) = true.
Proof.
  destruct m as [| p | p]; [reflexivity | ..].
  - rewrite digits_positive.
    destruct (string_of_uint_head (Pos.to_uint p)) as (c & r & E & _).
    { apply Unsigned.to_uint_nonnil. }
    now rewrite E.
  - now rewrite digits_negative.
Qed.

(** ** Doubles *)

Lemma shortest_from_reads (e : nat) (x : Z) :
  reads_as x x = true -> reads_as x (shortest_from e x) = true.
Proof.
  intros Hx. induction e as [| e IH]; [exact Hx |].
  cbn [shortest_from]. cbv zeta.
  destruct (reads_as x (x / 10 ^ Z.of_nat (S e) * 10 ^ Z.of_nat (S e))) eqn:Elo;
    destruct (reads_as x (x / 10 ^ Z.of_nat (S e) * 10 ^ Z.of_nat (S e)
                          + 10 ^ Z.of_nat (S e))) eqn:Ehi;
    cbn [andb]; try assumption.
  repeat match goal with |- context [if ?b then _ else _] => destruct b end;
    assumption.
Qed.

Lemma shortest_from_nonneg (e : nat) (x : Z) :
  (0 <= x)%Z -> (0 <= shortest_from e x)%Z.
Proof.
  intros Hx. induction e as [| e IH]; [exact Hx |].
  cbn [shortest_from]. cbv zeta.
  assert (Hp : (0 < 10 ^ Z.of_nat (S e))%Z) by (apply Z.pow_pos_nonneg; lia).
  assert (Hlo : (0 <= x / 10 ^ Z.of_nat (S e) * 10 ^ Z.of_nat (S e))%Z).
  { apply Z.mul_nonneg_nonneg; [apply Z.div_pos |]; lia. }
  repeat match goal with |- context [if ?b then _ else _] => destruct b end;
    try assumption; lia.
Qed.

Lemma is_double_abs (z : Z) :
  is_double z = true -> reads_as (Z.abs z) (Z.abs z) = true.
Proof.
  unfold is_double, reads_as. destruct z as [| p | p]; cbn [Z.abs]; try trivial.
  unfold to_double. change (- Z.neg p)%Z with (Z.pos p).
  destruct (round_to_double (Z.pos p)) as [v |]; [| discriminate].
  rewrite !Z.eqb_eq. lia.
Qed.

(** A double below [10^21], printed by the platform, reads back as
    itself. *)
Lemma parseInt_Number_toString (z : Z) :
  is_double z = true -> (Z.abs z <? 10 ^ 21)%Z = true ->
  parseInt (Number_toString (Int z)) = Int z.
Proof.
  intros Hz Hsmall. unfold Number_toString. cbv zeta. rewrite Hsmall.
  pose proof (shortest_from_reads (S (Z.to_nat (Z.log2 (Z.abs z)))) _ (is_double_abs z Hz))
    as Hreads.
  pose proof (shortest_from_nonneg (S (Z.to_nat (Z.log2 (Z.abs z)))) (Z.abs z)
                (Z.abs_nonneg z)) as Hnonneg.
  fold (shortest (Z.abs z)) in Hreads, Hnonneg.
  unfold reads_as in Hreads.
  destruct (z <? 0)%Z eqn:Hneg.
  - apply Z.ltb_lt in Hneg.
    destruct (shortest (Z.abs z)) as [| q | q]; [| | lia].
    + change (to_double 0) with (Int 0) in Hreads. apply Z.eqb_eq in Hreads. lia.
    + rewrite digits_positive.
      change ("-" ++ NilEmpty.string_of_uint (Pos.to_uint q))
        with (String "-" (NilEmpty.string_of_uint (Pos.to_uint q))).
      rewrite parseInt_minus. unfold to_double in *.
      change (- Z.neg q)%Z with (Z.pos q).
      destruct (round_to_double (Z.pos q)) as [v |]; [| discriminate].
      apply Z.eqb_eq in Hreads. f_equal. lia.
  - apply Z.ltb_ge in Hneg. rewrite parseInt_digits.
    destruct (to_double (shortest (Z.abs z))) as [| v |]; try discriminate.
    apply Z.eqb_eq in Hreads. f_equal. lia.
Qed.

Lemma Number_toString_truthy (n : number) : truthy_string (Number_toString n) = true.
Proof.
  destruct n as [| z | []]; try reflexivity. unfold Number_toString. cbv zeta.
  destruct (z <? 0)%Z; [reflexivity |].
  destruct (Z.abs z <? 10 ^ 21)%Z; [apply digits_truthy |].
  unfold exponential. cbv zeta.
  destruct (strip_zeros (digits (shortest (Z.abs z)))) as [| d [| d' r]];
    [apply digits_truthy | reflexivity | reflexivity].
Qed.

Lemma to_double_safe (z : Z) : isSafeInteger z = true -> to_double z = Int z.
Proof.
  unfold isSafeInteger, MAX_SAFE_INTEGER. rewrite andb_true_iff, !Z.leb_le. intros [Hlo Hhi].
  destruct z as [| q | q]; [reflexivity | ..]; unfold to_double, round_to_double;
    change (2 ^ 53)%Z with 9007199254740992%Z.
  - assert (E : (Z.pos q <? 9007199254740992)%Z = true) by (apply Z.ltb_lt; lia).
    now rewrite E.
  - change (- Z.neg q)%Z with (Z.pos q).
    assert (E : (Z.pos q <? 9007199254740992)%Z = true) by (apply Z.ltb_lt; lia).
    now rewrite E.
Qed.

Lemma to_double_not_NaN (m : Z) : to_double m <> NaN.
Proof.
  destruct m as [| q | q]; unfold to_double; [discriminate | ..];
    match goal with |- context [round_to_double ?x] => destruct (round_to_double x) end;
    discriminate.
Qed.

Lemma read_digits_some (s : string) (a : Z) : exists m, read_digits s (Some a) = Some m.
Proof.
  revert a. induction s as [| c r IH]; intros a; [now exists a |].
  destruct (is_digit c) eqn:E.
  - rewrite (read_digits_cons _ _ _ E). apply IH.
  - exists a. change (read_digits (String c r) (Some a))
      with (if is_digit c then read_digits r (Some (10 * a + digit_value c)%Z)
            else Some a).
    now rewrite E.
Qed.

Lemma read_digits_none (s : string) :
  read_digits s None = None <-> first_digit s = false.
Proof.
  destruct s as [| c r]; [now split |].
  unfold first_digit.
  change (read_digits (String c r) None)
    with (if is_digit c then read_digits r (Some (10 * 0 + digit_value c)%Z)
          else None).
  destruct (is_digit c); [| now split].
  destruct (read_digits_some r (10 * 0 + digit_value c)) as [m ->]. now split.
Qed.

Lemma parse_tail_NaN (negative : bool) (s : string) :
  match read_digits s None with
  | None => NaN
  | Some m => to_double (if negative then - m else m)
  end = NaN <-> first_digit s = false.
Proof.
  rewrite <- read_digits_none.
  destruct (read_digits s None) as [m |]; [| now split].
  split; [intros H; now apply to_double_not_NaN in H | discriminate].
Qed.

(** [parseInt] returns [NaN] exactly when no digit begins the value. *)
Lemma parseInt_NaN_iff (s : string) :
  parseInt s = NaN <-> begins_with_integer s = false.
Proof.
  unfold parseInt, begins_with_integer. cbv zeta.
  destruct (skip_white s) as [| c r]; [exact (parse_tail_NaN false EmptyString) |].
  each_byte c; first [apply (parse_tail_NaN false) | apply (parse_tail_NaN true)].
Qed.

(** ** The urlencoded codec *)

Lemma all_chars_app p (a b : string) :
  all_chars p (a ++ b) = all_chars p a && all_chars p b.
Proof.
  induction a as [| c a IH]; simpl; [reflexivity |].
  now rewrite IH, andb_assoc.
Qed.

Lemma all_chars_impl (p q : ascii -> bool) (s : string) :
  (forall c, p c = true -> q c = true) ->
  all_chars p s = true -> all_chars q s = true.
Proof.
  intros Hpq. induction s as [| c s IH]; simpl; [trivial |].
  rewrite !andb_true_iff. intros [H1 H2]. split; auto.
Qed.

Lemma percent_encode_cons (c : ascii) (s : string) :
  percent_encode (String c s) = percent_encode (String c EmptyString) ++ percent_encode s.
Proof.
  simpl. destruct (code c =? 32)%N; [reflexivity |].
  destruct (urlencoded_plain c); reflexivity.
Qed.

Lemma percent_encode_char_encoded (c : ascii) :
  all_chars encoded_char (percent_encode (String c EmptyString)) = true.
Proof. each_byte c; reflexivity. Qed.

Lemma percent_encode_encoded (s : string) :
  all_chars encoded_char (percent_encode s) = true.
Proof.
  induction s as [| c s IH]; [reflexivity |].
  now rewrite percent_encode_cons, all_chars_app, percent_encode_char_encoded, IH.
Qed.

Lemma urlencode_encoded (s : string) : all_chars encoded_char (urlencode s) = true.
Proof. apply percent_encode_encoded. Qed.

Lemma percent_decode_char (c : ascii) (r : string) :
  percent_decode (plus_to_space (percent_encode (String c EmptyString) ++ r))
  = String c (percent_decode (plus_to_space r)).
Proof. each_byte c; reflexivity. Qed.

(** The bytes the serializer wrote are the bytes the parser finds. *)
Lemma percent_decode_encode (s : string) :
  percent_decode (plus_to_space (percent_encode s)) = s.
Proof.
  induction s as [| c s IH]; [reflexivity |].
  now rewrite percent_encode_cons, percent_decode_char, IH.
Qed.

(** Decoding what was encoded, on every string. *)
Lemma urldecode_urlencode (s : string) : urldecode (urlencode s) = through_url s.
Proof. unfold urldecode, urlencode, through_url. now rewrite percent_decode_encode. Qed.

(** ** Strings of characters *)

Lemma replacement_not_ascii (r : string) :
  all_chars is_ascii (REPLACEMENT ++ r) = false.
Proof. reflexivity. Qed.

Lemma utf8_valid_length (n : nat) (s : string) :
  (String.length s <= n)%nat -> utf8_valid s = true -> utf8_decode s = s.
Proof.
  revert s. induction n as [| n IH]; intros s Hlen Hv.
  - destruct s; [reflexivity | simpl in Hlen; lia].
  - destruct s as [| c r]; [reflexivity |].
    cbn [utf8_valid utf8_decode] in *. cbv zeta in *.
    destruct (code c <? 128)%N.
    { f_equal. apply IH; [simpl in Hlen; lia | exact Hv]. }
    destruct ((194 <=? code c) && (code c <=? 223))%N.
    { destruct r as [| c1 r1]; [discriminate |].
      apply andb_true_iff in Hv. destruct Hv as [H1 Hv]. rewrite H1.
      do 2 f_equal. apply IH; [simpl in Hlen; lia | exact Hv]. }
    destruct ((224 <=? code c) && (code c <=? 239))%N.
    { destruct r as [| c1 [| c2 r2]]; try discriminate.
      rewrite !andb_true_iff in Hv. destruct Hv as [[H1 H2] Hv]. rewrite H1, H2.
      do 3 f_equal. apply IH; [simpl in Hlen; lia | exact Hv]. }
    destruct ((240 <=? code c) && (code c <=? 244))%N; [| discriminate].
    destruct r as [| c1 [| c2 [| c3 r3]]]; try discriminate.
    rewrite !andb_true_iff in Hv. destruct Hv as [[[H1 H2] H3] Hv].
    rewrite H1, H2, H3.
    do 4 f_equal. apply IH; [simpl in Hlen; lia | exact Hv].
Qed.

(** Decoding leaves a string of characters as it is. *)
Lemma utf8_valid_decode (s : string) : utf8_valid s = true -> utf8_decode s = s.
Proof. apply (utf8_valid_length (String.length s)). lia. Qed.

Lemma no_surrogate_toUSV (s : string) : no_surrogate s = true -> toUSV s = s.
Proof.
  induction s as [| c r IH]; [reflexivity |].
  cbn [no_surrogate toUSV]. rewrite andb_true_iff. intros [Hc Hr].
  destruct r as [| c1 [| c2 r2]]; try (now rewrite (IH Hr)).
  unfold surrogate_bytes. unfold surrogate_lead in Hc. apply negb_true_iff in Hc.
  rewrite Hc. cbn [andb]. now rewrite (IH Hr).
Qed.

Lemma continuation_no_lead (c c1 : ascii) :
  continuation c = true -> negb (surrogate_lead c c1) = true.
Proof.
  unfold continuation, surrogate_lead. rewrite andb_true_iff, !N.leb_le. intros [_ H].
  destruct (N.eqb_spec (code c) 237) as [E |]; [lia | reflexivity].
Qed.

Lemma second_byte_no_lead (c c1 : ascii) :
  second_byte c c1 = true -> negb (surrogate_lead c c1) = true.
Proof.
  unfold second_byte, surrogate_lead. cbv zeta. rewrite andb_true_iff, !N.leb_le.
  intros [_ H]. destruct (N.eqb_spec (code c) 237) as [E |]; [| reflexivity].
  cbn [andb]. apply negb_true_iff, andb_false_iff. left. apply N.leb_gt. lia.
Qed.

Lemma second_byte_small (c c1 : ascii) :
  second_byte c c1 = true -> (code c1 <=? 223)%N = true.
Proof.
  unfold second_byte. cbv zeta. rewrite andb_true_iff, !N.leb_le. intros [_ H].
  repeat match goal with
         | H : context [if ?b then _ else _] |- _ => destruct b
         end; lia.
Qed.

Lemma small_no_lead (c c1 : ascii) :
  (code c <=? 223)%N = true -> negb (surrogate_lead c c1) = true.
Proof.
  unfold surrogate_lead. rewrite N.leb_le. intros H.
  destruct (N.eqb_spec (code c) 237) as [E |]; [lia | reflexivity].
Qed.

Lemma large_no_lead (c c1 : ascii) :
  (240 <=? code c)%N = true -> negb (surrogate_lead c c1) = true.
Proof.
  unfold surrogate_lead. rewrite N.leb_le. intros H.
  destruct (N.eqb_spec (code c) 237) as [E |]; [lia | reflexivity].
Qed.

Lemma no_surrogate_cons (c : ascii) (r : string) :
  (forall c1, negb (surrogate_lead c c1) = true) -> no_surrogate r = true ->
  no_surrogate (String c r) = true.
Proof.
  intros Hc Hr. cbn [no_surrogate]. rewrite Hr.
  destruct r as [| c1 r1]; [reflexivity |]. now rewrite Hc.
Qed.

Lemma no_surrogate_pair (c c1 : ascii) (r : string) :
  negb (surrogate_lead c c1) = true -> no_surrogate (String c1 r) = true ->
  no_surrogate (String c (String c1 r)) = true.
Proof.
  intros Hc Hr. change (no_surrogate (String c (String c1 r)))
    with (negb (surrogate_lead c c1) && no_surrogate (String c1 r)).
  now rewrite Hc, Hr.
Qed.

Lemma utf8_valid_no_surrogate_length (n : nat) (s : string) :
  (String.length s <= n)%nat -> utf8_valid s = true -> no_surrogate s = true.
Proof.
  revert s. induction n as [| n IH]; intros s Hlen Hv.
  - destruct s; [reflexivity | simpl in Hlen; lia].
  - destruct s as [| c r]; [reflexivity |].
    cbn [utf8_valid] in Hv. cbv zeta in Hv.
    destruct (code c <? 128)%N eqn:E0.
    { apply no_surrogate_cons; [| apply IH; [simpl in Hlen; lia | exact Hv]].
      intros c1. apply small_no_lead. apply N.ltb_lt in E0. apply N.leb_le. lia. }
    destruct ((194 <=? code c) && (code c <=? 223))%N eqn:E1.
    { destruct r as [| c1 r1]; [discriminate |].
      apply andb_true_iff in Hv. destruct Hv as [H1 Hv].
      apply andb_true_iff in E1. destruct E1 as [_ E1].
      apply no_surrogate_cons; [intros ?; now apply small_no_lead |].
      apply no_surrogate_cons; [intros ?; now apply continuation_no_lead |].
      apply IH; [simpl in Hlen; lia | exact Hv]. }
    destruct ((224 <=? code c) && (code c <=? 239))%N eqn:E2.
    { destruct r as [| c1 [| c2 r2]]; try discriminate.
      rewrite !andb_true_iff in Hv. destruct Hv as [[H1 H2] Hv].
      apply no_surrogate_pair; [now apply second_byte_no_lead |].
      apply no_surrogate_cons;
        [intros ?; apply small_no_lead; now apply (second_byte_small c) |].
      apply no_surrogate_cons; [intros ?; now apply continuation_no_lead |].
      apply IH; [simpl in Hlen; lia | exact Hv]. }
    destruct ((240 <=? code c) && (code c <=? 244))%N eqn:E3; [| discriminate].
    destruct r as [| c1 [| c2 [| c3 r3]]]; try discriminate.
    rewrite !andb_true_iff in Hv. destruct Hv as [[[H1 H2] H3] Hv].
    apply andb_true_iff in E3. destruct E3 as [E3 _].
    apply no_surrogate_cons; [intros ?; now apply large_no_lead |].
    apply no_surrogate_cons;
      [intros ?; apply small_no_lead; now apply (second_byte_small c) |].
    apply no_surrogate_cons; [intros ?; now apply continuation_no_lead |].
    apply no_surrogate_cons; [intros ?; now apply continuation_no_lead |].
    apply IH; [simpl in Hlen; lia | exact Hv].
Qed.

(** A string of characters holds no surrogate, and goes through a URL
    unchanged. *)
Lemma utf8_valid_toUSV (s : string) : utf8_valid s = true -> toUSV s = s.
Proof.
  intros H. apply no_surrogate_toUSV.
  apply (utf8_valid_no_surrogate_length (String.length s)); [lia | exact H].
Qed.

Lemma utf8_valid_through_url (s : string) : utf8_valid s = true -> through_url s = s.
Proof.
  intros H. unfold through_url. rewrite (utf8_valid_toUSV _ H).
  now apply utf8_valid_decode.
Qed.

Lemma ascii_utf8_valid (s : string) : all_chars is_ascii s = true -> utf8_valid s = true.
Proof.
  induction s as [| c r IH]; [reflexivity |].
  cbn [all_chars utf8_valid]. cbv zeta. unfold is_ascii at 1.
  rewrite andb_true_iff. intros [-> H]. now apply IH.
Qed.

Lemma ascii_through_url (s : string) : all_chars is_ascii s = true -> through_url s = s.
Proof. intros H. now apply utf8_valid_through_url, ascii_utf8_valid. Qed.

Lemma ascii_toUSV_inv (s : string) :
  all_chars is_ascii (toUSV s) = true -> all_chars is_ascii s = true.
Proof.
  induction s as [| c r IH]; [reflexivity |].
  cbn [toUSV].
  assert (Hplain : all_chars is_ascii (String c (toUSV r)) = true ->
                   all_chars is_ascii (String c r) = true).
  { cbn [all_chars]. rewrite !andb_true_iff. intros [H1 H2]. split; [exact H1 | now apply IH]. }
  destruct r as [| c1 [| c2 r2]]; try exact Hplain.
  destruct (surrogate_bytes c c1 c2); [| exact Hplain].
  rewrite replacement_not_ascii. discriminate.
Qed.

Lemma ascii_utf8_decode_inv (s : string) :
  all_chars is_ascii (utf8_decode s) = true -> all_chars is_ascii s = true.
Proof.
  induction s as [| c r IH]; [reflexivity |].
  cbn [utf8_decode]. cbv zeta.
  destruct (code c <? 128)%N eqn:E.
  - cbn [all_chars]. rewrite !andb_true_iff. intros [H1 H2]. split; [exact H1 | now apply IH].
  - assert (Hc : forall x, all_chars is_ascii (String c x) = false).
    { intros x. cbn [all_chars]. unfold is_ascii at 1. now rewrite E. }
    intros H. exfalso. revert H.
    repeat match goal with
           | |- context [if ?b then _ else _] => destruct b
           | |- context [match ?x with EmptyString => _ | String _ _ => _ end] =>
               destruct x
           end;
      rewrite ?Hc, ?replacement_not_ascii; try discriminate;
      change REPLACEMENT with (REPLACEMENT ++ EmptyString);
      rewrite replacement_not_ascii; discriminate.
Qed.

(** A name of ASCII is the image of itself only. *)
Lemma through_url_ascii (k' k : string) :
  all_chars is_ascii k = true -> (through_url k' = k <-> k' = k).
Proof.
  intros Hk. split.
  - intros E. assert (Hk' : all_chars is_ascii k' = true).
    { apply ascii_toUSV_inv, ascii_utf8_decode_inv. fold (through_url k'). now rewrite E. }
    now rewrite (ascii_through_url _ Hk') in E.
  - intros ->. now apply ascii_through_url.
Qed.

Lemma get_through_url (l : list (string * string)) (k : string) :
  (forall k', In k' (keys l) -> (through_url k' = k <-> k' = k)) ->
  get (map through_url_pair l) k = option_map through_url (get l k).
Proof.
  induction l as [| [k0 v0] r IH]; intros H; [reflexivity |].
  cbn [map through_url_pair fst snd get].
  assert (E : String.eqb (through_url k0) k = String.eqb k0 k).
  { specialize (H k0 (or_introl eq_refl)).
    destruct (String.eqb_spec k0 k) as [-> | Hne].
    - apply String.eqb_eq. now apply H.
    - apply String.eqb_neq. intros E. apply Hne. now apply H. }
  rewrite E. destruct (String.eqb k0 k); [reflexivity |].
  apply IH. intros k' Hin. apply H. now right.
Qed.

Lemma break_at_app (sep : ascii) (a b : string) :
  all_chars (is_not sep) a = true ->
  break_at sep (a ++ String sep b) = (a, b).
Proof.
  induction a as [| c a IH]; simpl.
  - now rewrite Ascii.eqb_refl.
  - unfold is_not at 1. rewrite andb_true_iff, negb_true_iff.
    intros [-> H]. now rewrite (IH H).
Qed.

Lemma break_at_none (sep : ascii) (a : string) :
  all_chars (is_not sep) a = true -> break_at sep a = (a, EmptyString).
Proof.
  induction a as [| c a IH]; simpl; [reflexivity |].
  unfold is_not at 1. rewrite andb_true_iff, negb_true_iff.
  intros [-> H]. now rewrite (IH H).
Qed.

Lemma split_on_none (sep : ascii) (a : string) :
  all_chars (is_not sep) a = true -> split_on sep a = [a].
Proof.
  induction a as [| c a IH]; simpl; [reflexivity |].
  unfold is_not at 1. rewrite andb_true_iff, negb_true_iff.
  intros [-> H]. now rewrite (IH H).
Qed.

Lemma split_on_app (sep : ascii) (a b : string) :
  all_chars (is_not sep) a = true ->
  split_on sep (a ++ String sep b) = a :: split_on sep b.
Proof.
  induction a as [| c a IH]; simpl.
  - now rewrite Ascii.eqb_refl.
  - unfold is_not at 1. rewrite andb_true_iff, negb_true_iff.
    intros [-> H]. now rewrite (IH H).
Qed.

Lemma split_on_join (sep : ascii) (x : string) (l : list string) :
  Forall (fun a => all_chars (is_not sep) a = true) (x :: l) ->
  split_on sep (join (String sep EmptyString) (x :: l)) = x :: l.
Proof.
  revert x. induction l as [| y l IH]; intros x H.
  - simpl. apply split_on_none. now inversion H.
  - inversion H as [| ? ? Hx Hl]; subst.
    change (join (String sep EmptyString) (x :: y :: l))
      with (x ++ String sep (join (String sep EmptyString) (y :: l))).
    rewrite (split_on_app _ _ _ Hx), (IH y Hl). reflexivity.
Qed.

Lemma encoded_not_amp (c : ascii) : encoded_char c = true -> is_not "&" c = true.
Proof. intros H. each_byte c; vm_compute in H; try discriminate H; reflexivity. Qed.

Lemma encoded_not_eq (c : ascii) : encoded_char c = true -> is_not "=" c = true.
Proof. intros H. each_byte c; vm_compute in H; try discriminate H; reflexivity. Qed.

Lemma pair_text_no_amp (nv : string * string) :
  all_chars (is_not "&") (pair_text nv) = true.
Proof.
  unfold pair_text. rewrite !all_chars_app.
  rewrite !(all_chars_impl _ _ _ encoded_not_amp (urlencode_encoded _)).
  reflexivity.
Qed.

Lemma pair_text_truthy (nv : string * string) : truthy_string (pair_text nv) = true.
Proof. unfold pair_text. apply truthy_app_r. reflexivity. Qed.

Lemma pair_text_parse (nv : string * string) :
  (let '(n, v) := break_at "=" (pair_text nv) in (urldecode n, urldecode v))
  = through_url_pair nv.
Proof.
  unfold pair_text. change ("=" ++ urlencode (snd nv)) with (String "=" (urlencode (snd nv))).
  rewrite break_at_app
    by exact (all_chars_impl _ _ _ encoded_not_eq (urlencode_encoded _)).
  now rewrite !urldecode_urlencode.
Qed.

(** The parser reads back the pairs the serializer wrote, each name and
    value as it has gone through the URL. *)
Lemma urlencoded_parse_toString (l : list (string * string)) :
  urlencoded_parse (URLSearchParams_toString l) = map through_url_pair l.
Proof.
  unfold urlencoded_parse, URLSearchParams_toString. fold pair_text.
  destruct l as [| nv l]; [reflexivity |].
  change (map pair_text (nv :: l)) with (pair_text nv :: map pair_text l).
  rewrite split_on_join.
  - change (pair_text nv :: map pair_text l) with (map pair_text (nv :: l)).
    generalize (nv :: l) as l'. clear. induction l' as [| nv l IH]; simpl; [reflexivity |].
    rewrite pair_text_truthy. simpl. rewrite IH. f_equal. apply pair_text_parse.
  - change (pair_text nv :: map pair_text l) with (map pair_text (nv :: l)).
    apply Forall_forall. intros a Ha. apply in_map_iff in Ha.
    destruct Ha as (x & <- & _). apply pair_text_no_amp.
Qed.

(** ** The query of a built URL *)

Lemma encoded_query_char (c : ascii) : encoded_char c = true -> query_char c = true.
Proof. unfold query_char. now intros ->. Qed.

Lemma query_char_kept (c : ascii) : query_char c = true -> kept_char c = true.
Proof. intros H. each_byte c; vm_compute in H; try discriminate H; reflexivity. Qed.

Lemma query_char_ascii (c : ascii) : query_char c = true -> is_ascii c = true.
Proof. intros H. each_byte c; vm_compute in H; try discriminate H; reflexivity. Qed.

Lemma kept_not_tab (c : ascii) : kept_char c = true -> negb (tab_or_newline c) = true.
Proof. intros H. each_byte c; vm_compute in H; try discriminate H; reflexivity. Qed.

Lemma toString_query_chars (l : list (string * string)) :
  all_chars query_char (URLSearchParams_toString l) = true.
Proof.
  unfold URLSearchParams_toString. fold pair_text.
  assert (Hpair : forall nv, all_chars query_char (pair_text nv) = true).
  { intros nv. unfold pair_text. rewrite !all_chars_app.
    rewrite !(all_chars_impl _ _ _ encoded_query_char (urlencode_encoded _)).
    reflexivity. }
  induction l as [| nv l IH]; [reflexivity |].
  destruct l as [| nv' l]; [apply Hpair |].
  change (join "&" (map pair_text (nv :: nv' :: l)))
    with (pair_text nv ++ "&" ++ join "&" (map pair_text (nv' :: l))).
  rewrite !all_chars_app, Hpair, IH. reflexivity.
Qed.

Lemma trim_end_kept (s : string) :
  all_chars kept_char s = true -> trim_end s = s.
Proof.
  induction s as [| c s IH]; simpl; [reflexivity |].
  rewrite andb_true_iff. intros [Hc Hs]. rewrite (IH Hs).
  destruct s; [| reflexivity].
  unfold kept_char in Hc. apply andb_true_iff in Hc. destruct Hc as [Hc _].
  apply negb_true_iff in Hc. now rewrite Hc.
Qed.

Lemma remove_tab_newline_kept (s : string) :
  all_chars kept_char s = true -> remove_tab_newline s = s.
Proof.
  induction s as [| c s IH]; simpl; [reflexivity |].
  rewrite andb_true_iff. intros [Hc Hs]. rewrite (IH Hs).
  apply kept_not_tab, negb_true_iff in Hc. now rewrite Hc.
Qed.

Lemma kept_not_hash (c : ascii) : kept_char c = true -> is_not "#" c = true.
Proof. unfold kept_char. rewrite andb_true_iff. tauto. Qed.

Lemma URL_query_build (q : string) :
  all_chars query_char q = true ->
  URL_query (SEARCH_API_URL ++ "?" ++ q) = q.
Proof.
  intros Hq. unfold URL_query.
  assert (Hkept : all_chars kept_char (SEARCH_API_URL ++ "?" ++ q) = true).
  { rewrite !all_chars_app, (all_chars_impl _ _ _ query_char_kept Hq). reflexivity. }
  assert (Hascii : all_chars is_ascii (SEARCH_API_URL ++ "?" ++ q) = true).
  { rewrite !all_chars_app, (all_chars_impl _ _ _ query_char_ascii Hq). reflexivity. }
  rewrite (utf8_valid_toUSV _ (ascii_utf8_valid _ Hascii)).
  change (trim_start (SEARCH_API_URL ++ "?" ++ q)) with (SEARCH_API_URL ++ "?" ++ q).
  rewrite (trim_end_kept _ Hkept), (remove_tab_newline_kept _ Hkept).
  rewrite (break_at_none "#") by exact (all_chars_impl _ _ _ kept_not_hash Hkept).
  cbn [fst]. change ("?" ++ q) with (String "?" q).
  rewrite break_at_app by reflexivity. reflexivity.
Qed.

(** The parameters read from a built URL are the pairs that went in,
    each name and value as it has gone through the URL. *)
Lemma URL_searchParams_build (params : SearchAPIParams) :
  URL_searchParams (buildSearchAPIUrl params)
  = map through_url_pair (appended (mergedParams params)).
Proof.
  unfold URL_searchParams, buildSearchAPIUrl.
  rewrite (URL_query_build _ (toString_query_chars _)).
  apply urlencoded_parse_toString.
Qed.

(** ** The merged parameters *)

Section Keys.

Context {V : Type}.
Implicit Types (o : obj V) (k : string) (v : V).

Lemma In_keys_set o k v k' :
  In k' (keys (set k v o)) <-> k' = k \/ In k' (keys o).
Proof.
  induction o as [| [k0 v0] r IH]; simpl.
  - intuition.
  - destruct (String.eqb k0 k) eqn:E; simpl.
    + apply String.eqb_eq in E. subst k0. intuition.
    + rewrite IH. intuition.
Qed.

Lemma NoDup_set o k v : NoDup (keys o) -> NoDup (keys (set k v o)).
Proof.
  induction o as [| [k0 v0] r IH]; simpl; intros H.
  - constructor; [intros [] | constructor].
  - inversion H as [| ? ? Hnotin Hnd]; subst.
    destruct (String.eqb k0 k) eqn:E; simpl.
    + apply String.eqb_eq in E. subst k0. now constructor.
    + apply String.eqb_neq in E. constructor; [| now apply IH].
      rewrite In_keys_set. intros [-> | Hin]; [now apply E | now apply Hnotin].
Qed.

Lemma NoDup_spread (target source : obj V) :
  NoDup (keys target) -> NoDup (keys (spread target source)).
Proof.
  unfold spread. revert target.
  induction source as [| [k v] r IH]; intros target H; simpl; [exact H |].
  apply IH, NoDup_set, H.
Qed.

Lemma get_rev o k : NoDup (keys o) -> get (rev o) k = get o k.
Proof.
  intros Hnd.
  assert (Hrev : NoDup (keys (rev o))).
  { unfold keys. rewrite map_rev. now apply NoDup_rev. }
  destruct (get o k) as [v |] eqn:E.
  - apply In_get_NoDup; [exact Hrev |]. apply in_rev. rewrite rev_involutive.
    now apply get_In.
  - apply get_None_notin. apply get_None_notin in E.
    unfold keys in *. rewrite map_rev, <- in_rev. exact E.
Qed.

End Keys.

Lemma mergedParams_NoDup (params : SearchAPIParams) : NoDup (keys (mergedParams params)).
Proof. unfold mergedParams. apply NoDup_spread, NoDup_spread. constructor. Qed.

Lemma get_mergedParams (params : SearchAPIParams) (k : string) :
  NoDup (keys params) ->
  get (mergedParams params) k =
  match get params k with
  | Some v => Some v
  | None => get DEFAULT_API_PARAMS k
  end.
Proof. intros H. unfold mergedParams. now rewrite (get_spread _ _ _ H). Qed.

Lemma keys_appended (o : SearchAPIParams) (k : string) :
  In k (keys (appended o)) -> In k (keys o).
Proof.
  induction o as [| [k0 v0] r IH]; simpl; [trivial |].
  destruct v0; simpl; intuition.
Qed.

Lemma NoDup_appended (o : SearchAPIParams) :
  NoDup (keys o) -> NoDup (keys (appended o)).
Proof.
  induction o as [| [k0 v0] r IH]; simpl; intros H; [constructor |].
  inversion H as [| ? ? Hnotin Hnd]; subst.
  destruct v0; simpl; auto; constructor; auto;
    intros Hin; apply Hnotin; now apply keys_appended.
Qed.

Lemma get_appended (o : SearchAPIParams) (k : string) :
  NoDup (keys o) -> get (appended o) k = appended_value (get o k).
Proof.
  induction o as [| [k0 v0] r IH]; simpl; intros H; [reflexivity |].
  inversion H as [| ? ? Hnotin Hnd]; subst.
  destruct (String.eqb k0 k) eqn:E.
  - apply String.eqb_eq in E. subst k0.
    assert (Hnone : get (appended r) k = None).
    { apply get_None_notin. intros Hin. apply Hnotin. now apply keys_appended. }
    destruct v0; simpl; rewrite ?String.eqb_refl; auto.
  - destruct v0; simpl; rewrite ?E; auto.
Qed.

(** The raw parameters decoded from a built URL, under a name that is
    the image of itself only among the names that went in. *)
Lemma parseQueryParams_build (params : SearchAPIParams) (k : string) :
  k <> "__proto__" ->
  (forall k', In k' (keys (mergedParams params)) -> (through_url k' = k <-> k' = k)) ->
  get (parseQueryParams (buildSearchAPIUrl params)) k =
  option_map through_url (appended_value (get (mergedParams params) k)).
Proof.
  intros Hk Hnames. rewrite (parseQueryParams_get _ _ Hk), URL_searchParams_build.
  rewrite <- map_rev, get_through_url.
  - rewrite get_rev by apply NoDup_appended, mergedParams_NoDup.
    f_equal. apply get_appended, mergedParams_NoDup.
  - intros k' Hin. apply Hnames, keys_appended.
    unfold keys in *. rewrite map_rev, <- in_rev in Hin. exact Hin.
Qed.

(** The same, under a name of ASCII. *)
Lemma parseQueryParams_build_ascii (params : SearchAPIParams) (k : string) :
  k <> "__proto__" -> all_chars is_ascii k = true ->
  get (parseQueryParams (buildSearchAPIUrl params)) k =
  option_map through_url (appended_value (get (mergedParams params) k)).
Proof.
  intros Hk Hascii. apply (parseQueryParams_build _ _ Hk).
  intros k' _. now apply through_url_ascii.
Qed.

(** ** The round trip *)

Lemma mem_In (k : string) (l : list string) : mem k l = true <-> In k l.
Proof.
  unfold mem. rewrite existsb_exists. split.
  - intros (x & Hx & E). apply String.eqb_eq in E. now subst.
  - intros H. exists k. split; [exact H | apply String.eqb_refl].
Qed.

Lemma valid_value_recognized (k : string) (v : value) :
  valid_value k v = true -> In k recognized_fields.
Proof.
  unfold recognized_fields. rewrite in_app_iff.
  destruct v as [| | [| z | b] | s]; cbn [valid_value typed_value];
    try discriminate.
  - intros H. apply mem_In in H. unfold recognized_fields in H.
    now rewrite in_app_iff in H.
  - rewrite !andb_true_iff. intros [[H _] _]. left. now apply mem_In.
  - rewrite !andb_true_iff. intros [[H _] _]. right. now apply mem_In.
Qed.

Lemma merged_valid (p : SearchAPIParams) (k : string) (v : value) :
  NoDup (keys p) -> valid_params p = true ->
  get (mergedParams p) k = Some v -> valid_value k v = true.
Proof.
  intros Hnd Hvalid. rewrite (get_mergedParams _ _ Hnd).
  destruct (get p k) as [w |] eqn:E.
  - intros [= ->]. apply get_In in E. unfold valid_params in Hvalid.
    rewrite forallb_forall in Hvalid. exact (Hvalid _ E).
  - unfold DEFAULT_API_PARAMS. cbn [get].
    repeat match goal with
           | |- context [String.eqb ?a k] =>
               let E' := fresh "E" in
               destruct (String.eqb a k) eqn:E';
               [apply String.eqb_eq in E'; subst k; intros [= <-]; reflexivity |]
           end.
    discriminate.
Qed.

Lemma decoded_truthy (params : obj string) (k s : string) (convert : string -> value) :
  get params k = Some s -> truthy_string s = true ->
  decoded params k convert = Some (convert s).
Proof. unfold decoded. intros -> H. destruct s; [discriminate | reflexivity]. Qed.

Lemma decoded_absent (params : obj string) (k : string) (convert : string -> value) :
  get params k = None -> decoded params k convert = None.
Proof. unfold decoded. now intros ->. Qed.

Lemma string_of_uint_ascii (d : Decimal.uint) :
  all_chars is_ascii (NilEmpty.string_of_uint d) = true.
Proof. induction d; cbn [NilEmpty.string_of_uint all_chars]; [reflexivity | exact IHd ..]. Qed.

Lemma digits_ascii (m : Z) : all_chars is_ascii (digits m) = true.
Proof.
  destruct m as [| q | q]; [reflexivity | ..].
  - rewrite digits_positive. apply string_of_uint_ascii.
  - rewrite digits_negative. cbn [all_chars]. apply string_of_uint_ascii.
Qed.

Lemma strip_zeros_chars (p : ascii -> bool) (s : string) :
  all_chars p s = true -> all_chars p (strip_zeros s) = true.
Proof.
  induction s as [| c r IH]; [trivial |].
  cbn [all_chars strip_zeros]. rewrite andb_true_iff. intros [Hc Hr].
  specialize (IH Hr). destruct (strip_zeros r) as [| c' r'].
  - destruct (code c =? 48)%N; [reflexivity |]. cbn [all_chars]. now rewrite Hc.
  - cbn [all_chars] in *. now rewrite Hc.
Qed.

(** A printed number is made of ASCII. *)
Lemma Number_toString_ascii (n : number) :
  all_chars is_ascii (Number_toString n) = true.
Proof.
  destruct n as [| z | []]; try reflexivity. unfold Number_toString. cbv zeta.
  assert (H : all_chars is_ascii
                (if (Z.abs z <? 10 ^ 21)%Z then digits (shortest (Z.abs z))
                 else exponential (shortest (Z.abs z))) = true).
  { destruct (Z.abs z <? 10 ^ 21)%Z; [apply digits_ascii |].
    unfold exponential. cbv zeta.
    pose proof (strip_zeros_chars _ _ (digits_ascii (shortest (Z.abs z)))) as Hs.
    destruct (strip_zeros (digits (shortest (Z.abs z)))) as [| d [| d' r]].
    - apply digits_ascii.
    - cbn [all_chars] in Hs |- *. apply andb_true_iff in Hs. destruct Hs as [-> _].
      change ("e+" ++ ?x) with (String "e" (String "+" x)). cbn [all_chars andb].
      apply digits_ascii.
    - change (all_chars is_ascii (String d (String d' r))) with
        (is_ascii d && all_chars is_ascii (String d' r)) in Hs.
      apply andb_true_iff in Hs. destruct Hs as [Hd Hr].
      cbn [all_chars]. rewrite Hd. cbn [andb].
      change ("." ++ ?x) with (String "." x). cbn [all_chars andb].
      rewrite all_chars_app, Hr. cbn [andb].
      change ("e+" ++ ?x) with (String "e" (String "+" x)). cbn [all_chars andb].
      apply digits_ascii. }
  destruct (z <? 0)%Z; [| exact H].
  change ("-" ++ ?x) with (String "-" x). cbn [all_chars andb]. exact H.
Qed.

Lemma recognized_ascii (k : string) :
  In k recognized_fields -> all_chars is_ascii k = true.
Proof.
  intros H. repeat (destruct H as [<- | H]; [reflexivity |]). destruct H.
Qed.

(** A valid value is sent and read back as [String] prints it. *)
Lemma valid_through_url (k : string) (v : value) :
  valid_value k v = true ->
  option_map through_url (appended_value (Some v)) = appended_value (Some v).
Proof.
  destruct v as [| | n | s]; cbn [appended_value option_map String_]; try reflexivity.
  - intros _. f_equal. apply ascii_through_url, Number_toString_ascii.
  - cbn [valid_value]. rewrite !andb_true_iff. intros [_ H]. f_equal.
    now apply utf8_valid_through_url.
Qed.

Lemma round_trip_raw (p : SearchAPIParams) (k : string) :
  NoDup (keys p) -> valid_params p = true -> In k recognized_fields ->
  get (parseQueryParams (buildSearchAPIUrl p)) k =
  appended_value (get (mergedParams p) k).
Proof.
  intros Hnd Hvalid Hin.
  rewrite (parseQueryParams_build_ascii p k (recognized_not_proto k Hin)
             (recognized_ascii k Hin)).
  destruct (get (mergedParams p) k) as [v |] eqn:E; [| reflexivity].
  exact (valid_through_url k v (merged_valid p k v Hnd Hvalid E)).
Qed.

Lemma round_trip_field (p : SearchAPIParams) (k : string) :
  NoDup (keys p) -> valid_params p = true ->
  prop (parseUrl (buildUrl p)) k = prop (mergedParams p) k.
Proof.
  intros Hnd Hvalid. unfold prop, parseUrl, buildUrl.
  pose proof (merged_valid p k) as Hm. specialize (fun v => Hm v Hnd Hvalid).
  destruct (in_dec string_dec k recognized_fields) as [Hin | Hout].
  - pose proof (round_trip_raw p k Hnd Hvalid Hin) as Hraw.
    unfold recognized_fields in Hin. apply in_app_or in Hin.
    destruct Hin as [Hin | Hin].
    + rewrite (toSearchAPIParams_integer _ _ Hin).
      destruct (get (mergedParams p) k) as [v |].
      * specialize (Hm v eq_refl).
        destruct v as [| | [| z | b] | s]; cbn [appended_value String_] in Hraw;
          try (rewrite (decoded_absent _ _ _ Hraw); reflexivity);
          try discriminate Hm.
        -- rewrite (decoded_truthy _ _ _ _ Hraw (Number_toString_truthy (Int z))).
           cbn [valid_value typed_value] in Hm. rewrite !andb_true_iff in Hm.
           destruct Hm as [[_ Hz] Hsmall].
           unfold parseInt10. now rewrite (parseInt_Number_toString z Hz Hsmall).
        -- exfalso. destruct Hin as [<- | [<- | [<- | []]]]; discriminate Hm.
      * cbn [appended_value String_] in Hraw. now rewrite (decoded_absent _ _ _ Hraw).
    + rewrite (toSearchAPIParams_string _ _ Hin).
      destruct (get (mergedParams p) k) as [v |].
      * specialize (Hm v eq_refl).
        destruct v as [| | [| z | b] | s]; cbn [appended_value String_] in Hraw;
          try (rewrite (decoded_absent _ _ _ Hraw); reflexivity);
          try discriminate Hm.
        -- exfalso. destruct Hin as [<- | [<- | [<- | []]]]; discriminate Hm.
        -- cbn [valid_value] in Hm. rewrite !andb_true_iff in Hm.
           destruct Hm as [[_ Hs] _].
           now rewrite (decoded_truthy _ _ _ _ Hraw Hs).
      * cbn [appended_value String_] in Hraw. now rewrite (decoded_absent _ _ _ Hraw).
  - rewrite (toSearchAPIParams_other _ _ Hout).
    destruct (get (mergedParams p) k) as [v |]; [| reflexivity].
    exfalso. apply Hout. exact (valid_value_recognized _ _ (Hm v eq_refl)).
Qed.

(** C1, as the code has it. For every parameter set [p] whose properties
    are recognised fields holding valid values (in an integer field an
    integer of magnitude below [10^21], in a string field a non-empty
    string with no surrogate that lacks its partner, or [undefined]),
    decoding the URL built from [p] gives, field by field, [p] merged
    over the defaults [{summary: 1, country: "GB", country_id: "GB"}]: a
    field of [p] wins, a field [p] lacks keeps its default. *)
Theorem C1_round_trip_nonempty (p : SearchAPIParams) (k : string) :
  NoDup (keys p) -> valid_params p = true ->
  prop (parseUrl (buildUrl p)) k =
  match get p k with
  | Some v => v
  | None => prop DEFAULT_API_PARAMS k
  end.
Proof.
  intros Hnd Hvalid. rewrite (round_trip_field p k Hnd Hvalid).
  unfold prop. rewrite (get_mergedParams _ _ Hnd).
  destruct (get p k); reflexivity.
Qed.

Lemma C1_round_trip_nonempty_witness :
  prop (parseUrl (buildUrl [("cat_id", VNumber (Int 88));
                            ("meta_code", VString "adult_services");
                            ("geo_id", VNumber (Int 7));
                            ("country", VString "FR")])) "country"
  = VString "FR".
Proof.
  apply (C1_round_trip_nonempty
           [("cat_id", VNumber (Int 88)); ("meta_code", VString "adult_services");
            ("geo_id", VNumber (Int 7)); ("country", VString "FR")] "country").
  - repeat constructor; simpl; intuition discriminate.
  - reflexivity.
Defined.

(** C1 as stated fails in three places, each a parameter set of the
    declared type. On the empty string: the URL of [{meta_code: ""}]
    carries [meta_code=], and decoding drops the field. On a surrogate
    without its partner: the URL of [{meta_code: "\uD800"}] carries
    U+FFFD in its place, [meta_code=%EF%BF%BD], and that is what decoding
    returns. On an integer from [10^21] on: the URL of [{geo_id: 1e21}]
    carries [geo_id=1e%2B21], which decodes to [1]. *)
Lemma C1_round_trip_counterexample :
  (let p : SearchAPIParams := [("meta_code", VString EmptyString)] in
   NoDup (keys p) /\ typed_params p = true /\
   buildUrl p = SEARCH_API_URL ++ "?summary=1&country=GB&country_id=GB&meta_code=" /\
   prop (parseUrl (buildUrl p)) "meta_code" = VUndefined /\
   prop (mergedParams p) "meta_code" = VString EmptyString /\
   prop (parseUrl (buildUrl p)) "meta_code" <> prop (mergedParams p) "meta_code")
  /\
  (let p : SearchAPIParams := [("meta_code", VString lone_surrogate)] in
   NoDup (keys p) /\ typed_params p = true /\
   buildUrl p
   = SEARCH_API_URL ++ "?summary=1&country=GB&country_id=GB&meta_code=%EF%BF%BD" /\
   prop (parseUrl (buildUrl p)) "meta_code" = VString REPLACEMENT /\
   prop (mergedParams p) "meta_code" = VString lone_surrogate /\
   prop (parseUrl (buildUrl p)) "meta_code" <> prop (mergedParams p) "meta_code")
  /\
  (let p : SearchAPIParams := [("geo_id", VNumber (Int 1000000000000000000000))] in
   NoDup (keys p) /\ typed_params p = true /\
   buildUrl p = SEARCH_API_URL ++ "?summary=1&country=GB&country_id=GB&geo_id=1e%2B21" /\
   prop (parseUrl (buildUrl p)) "geo_id" = VNumber (Int 1) /\
   prop (mergedParams p) "geo_id" = VNumber (Int 1000000000000000000000) /\
   prop (parseUrl (buildUrl p)) "geo_id" <> prop (mergedParams p) "geo_id").
Proof.
  cbv zeta.
  assert (Hnd : forall (k : string) (v : value), NoDup (keys [(k, v)])).
  { intros k v. constructor; [intros [] | constructor]. }
  split; [| split];
    (split; [apply Hnd |]);
    (split; [vm_compute; reflexivity |]);
    (split; [vm_compute; reflexivity |]);
    (split; [vm_compute; reflexivity |]);
    (split; [vm_compute; reflexivity |]);
    vm_compute; discriminate.
Qed.

(** ** The defaults *)

Lemma keys_set_extends {V} (o : obj V) (k : string) (v : V) :
  exists rest, keys (set k v o) = (keys o ++ rest)%list.
Proof.
  induction o as [| [k0 v0] r [rest IH]]; simpl.
  - now exists [k].
  - destruct (String.eqb k0 k) eqn:E; simpl.
    + apply String.eqb_eq in E. subst k0. exists []. now rewrite app_nil_r.
    + exists rest. now rewrite IH.
Qed.

Lemma keys_spread_extends {V} (target source : obj V) :
  exists rest, keys (spread target source) = (keys target ++ rest)%list.
Proof.
  unfold spread. revert target.
  induction source as [| [k v] r IH]; intros target; simpl.
  - exists []. now rewrite app_nil_r.
  - destruct (IH (set k v target)) as [rest1 H1].
    destruct (keys_set_extends target k v) as [rest2 H2].
    exists (rest2 ++ rest1)%list. now rewrite H1, H2, app_assoc.
Qed.

Lemma In_keys_spread {V} (target source : obj V) (k : string) :
  In k (keys (spread target source)) -> In k (keys target) \/ In k (keys source).
Proof.
  unfold spread. revert target.
  induction source as [| [k0 v0] r IH]; intros target H; [now left |].
  cbn [fold_left fst snd] in H. apply IH in H.
  change (keys ((k0, v0) :: r)) with (k0 :: keys r).
  destruct H as [H | H]; [| right; now right].
  apply In_keys_set in H. destruct H as [-> | H]; [right; now left | now left].
Qed.

Lemma appended_through_url (o : SearchAPIParams) :
  (forall k v, In (k, v) o ->
     through_url k = k /\ (forall s, v = VString s -> utf8_valid s = true)) ->
  map through_url_pair (appended o) = appended o.
Proof.
  induction o as [| [k v] r IH]; intros H; [reflexivity |].
  pose proof (IH (fun k v Hin => H k v (or_intror Hin))) as IH'.
  destruct (H k v (or_introl eq_refl)) as [Hk Hv].
  destruct v as [| | n | s]; cbn [appended]; try exact IH';
    cbn [map]; rewrite IH'; f_equal; unfold through_url_pair; cbn [fst snd String_];
    rewrite Hk; f_equal.
  - apply ascii_through_url, Number_toString_ascii.
  - now apply utf8_valid_through_url, Hv.
Qed.

Lemma merged_recognized (p : SearchAPIParams) (k : string) :
  Forall (fun k => In k recognized_fields) (keys p) ->
  In k (keys (mergedParams p)) -> In k recognized_fields.
Proof.
  intros Hp Hin. unfold mergedParams in Hin. apply In_keys_spread in Hin.
  destruct Hin as [Hin | Hin].
  - destruct Hin as [<- | [<- | [<- | []]]]; simpl; tauto.
  - rewrite Forall_forall in Hp. now apply Hp.
Qed.

(** C9. The URL built from the empty parameter set carries
    [summary=1&country=GB&country_id=GB] and nothing else; in general, in
    the merge a property of the caller replaces the default of the same
    name and leaves the others in place, and for a caller's set of
    recognised fields the query of the built URL lists the defined
    properties of the merge, the three defaults first, each as it has
    gone through the URL: as it is when every string of the merge is a
    string of characters, with U+FFFD in the place of a surrogate without
    its partner otherwise. *)
Theorem C9_default_merge :
  buildUrl [] =
    "https://search.vivastreet.co.uk/ajax/regions_tree.php?summary=1&country=GB&country_id=GB"
  /\ URL_searchParams (buildUrl []) =
       [("summary", "1"); ("country", "GB"); ("country_id", "GB")]
  /\ (forall (p : SearchAPIParams) (k : string),
        NoDup (keys p) ->
        get (mergedParams p) k =
        match get p k with
        | Some v => Some v
        | None => get DEFAULT_API_PARAMS k
        end)
  /\ (forall p : SearchAPIParams,
        Forall (fun k => In k recognized_fields) (keys p) ->
        URL_searchParams (buildUrl p)
        = map through_url_pair (appended (mergedParams p))
        /\ ((forall k s, get (mergedParams p) k = Some (VString s) ->
               utf8_valid s = true) ->
            URL_searchParams (buildUrl p) = appended (mergedParams p)))
  /\ (forall p : SearchAPIParams,
        Forall (fun k => In k recognized_fields) (keys p) ->
        exists rest,
          keys (mergedParams p) = (["summary"; "country"; "country_id"] ++ rest)%list)
  /\ buildUrl [("country", VString "FR")] =
       "https://search.vivastreet.co.uk/ajax/regions_tree.php?summary=1&country=FR&country_id=GB".
Proof.
  split; [reflexivity |]. split; [reflexivity |].
  split; [intros p k H; now apply get_mergedParams |].
  split.
  { intros p Hp. split; [apply URL_searchParams_build |].
    intros Hvalid. unfold buildUrl. rewrite URL_searchParams_build.
    apply appended_through_url. intros k v Hin. split.
    - apply ascii_through_url, recognized_ascii, (merged_recognized p k Hp).
      change k with (fst (k, v)). now apply in_map.
    - intros s ->. apply (Hvalid k).
      now apply In_get_NoDup; [apply mergedParams_NoDup |]. }
  split; [| reflexivity].
  intros p _. unfold mergedParams.
  exact (keys_spread_extends (spread [] DEFAULT_API_PARAMS) p).
Qed.

Lemma C9_default_merge_witness :
  get (mergedParams [("country", VString "FR"); ("geo_id", VNumber (Int 7))]) "summary"
  = Some (VNumber (Int 1)).
Proof.
  destruct C9_default_merge as (_ & _ & H & _).
  rewrite H; [reflexivity |].
  repeat constructor; simpl; intuition discriminate.
Defined.

(** ** The translator *)

(** C7. A request for the empty location translates to [{geo_id: 0}]:
    the empty label is an entry of the location table, standing for no
    geographic filter. *)
Theorem C7_empty_location (kw : option string) :
  translate {| category := None; location := Some EmptyString; keyword := kw |}
  = ok [("geo_id", VNumber (Int 0))]
  /\ getLocationMapping EmptyString
     = Own {| lm_label := EmptyString; lm_geo_id := 0 |}.
Proof. split; reflexivity. Qed.

(** C6, as the code has it. The category "Escorts and Massages" in
    "London" translates to the category id 88 with the meta code
    [adult_services], and the location id 7. *)
Theorem C6_known_mapping (kw : option string) :
  translate {| category := Some "Escorts and Massages";
               location := Some "London"; keyword := kw |}
  = ok [("cat_id", VNumber (Int 88));
        ("meta_code", VString "adult_services");
        ("geo_id", VNumber (Int 7))]
  /\ getCategoryMapping "Escorts and Massages"
     = Own {| cm_label := "Escorts and Massages"; cm_cat_id := 88;
              cm_meta_code := "adult_services" |}
  /\ getLocationMapping "London" = Own {| lm_label := "London"; lm_geo_id := 7 |}.
Proof. repeat split; reflexivity. Qed.

(** C6 as stated names a meta code the table does not hold. *)
Lemma C6_known_mapping_counterexample :
  exists r : SearchAPIParams,
    translate {| category := Some "Escorts and Massages";
                 location := Some "London"; keyword := None |} = ok r
    /\ prop r "meta_code" = VString "adult_services"
    /\ prop r "meta_code" <> VString "escorts_massages".
Proof.
  eexists. split; [reflexivity |]. split; [reflexivity |].
  vm_compute. discriminate.
Qed.

Lemma string_app_assoc (a b c : string) : (a ++ b) ++ c = a ++ b ++ c.
Proof. induction a as [| x a IH]; simpl; [reflexivity | now rewrite IH]. Qed.

(** C4, as the code has it. A request whose category is a non-empty
    label with no entry in the category table (and not the name of a
    member every object inherits) makes the translation throw, whatever
    the location; the message starts by naming the label between quotes
    and tells to add the mapping to [api/mappings/category-mappings.ts]. *)
Theorem C4_unknown_category (label : string) (loc kw : option string) :
  label <> EmptyString ->
  get CATEGORY_MAPPINGS label = None ->
  inherited label = false ->
  translate {| category := Some label; location := loc; keyword := kw |}
  = throw (Error (SearchAPIHelper.category_not_found label))
  /\ (exists rest,
        SearchAPIHelper.category_not_found label
        = "Category mapping not found for: " ++ dq ++ label ++ dq ++ rest)
  /\ occurs_in "Add mapping to api/mappings/category-mappings.ts"
               (SearchAPIHelper.category_not_found label).
Proof.
  intros Hne Hget Hinh. split; [| split].
  - unfold translate, SearchAPIHelper.mapToAPIParams, SearchAPIHelper.map_category.
    cbn [category]. destruct label as [| c r]; [congruence |]. cbn [truthy_string].
    unfold getCategoryMapping, lookup. rewrite Hget, Hinh. reflexivity.
  - eexists. reflexivity.
  - exists ("Category mapping not found for: " ++ dq ++ label ++ dq ++ "." ++ nl).
    eexists. unfold SearchAPIHelper.category_not_found.
    rewrite !string_app_assoc. reflexivity.
Qed.

Lemma C4_unknown_category_witness :
  translate {| category := Some "Nonexistent Category"; location := None;
               keyword := None |}
  = throw (Error (SearchAPIHelper.category_not_found "Nonexistent Category")).
Proof.
  apply (C4_unknown_category "Nonexistent Category" None None);
    [discriminate | reflexivity | reflexivity].
Defined.

(** C4 as stated fails on the empty label: it has no entry in the
    category table, and the translation returns without a category. *)
Lemma C4_unknown_category_counterexample :
  get CATEGORY_MAPPINGS EmptyString = None
  /\ translate {| category := Some EmptyString; location := None; keyword := None |}
     = ok [].
Proof. split; reflexivity. Qed.

(** A label that names a member of [Object.prototype] finds that member
    in the table: no error is thrown and the fields are set to
    [undefined]. *)
Example translate_inherited_name :
  get CATEGORY_MAPPINGS "toString" = None
  /\ translate {| category := Some "toString"; location := None; keyword := None |}
     = ok [("cat_id", VUndefined); ("meta_code", VUndefined)].
Proof. split; reflexivity. Qed.

(** ** The interception session *)

(** A call that throws returns before the clean-up: it leaves the helper
    as it found it. *)
Lemma validateInterceptedRequest_throw (ui : SearchParameters) (h : helper)
    (e : exception) :
  fst (validateInterceptedRequest ui h) = throw e ->
  snd (validateInterceptedRequest ui h) = h.
Proof.
  rewrite validateInterceptedRequest_cases.
  destruct (interceptedRequest h) as [request |]; [| reflexivity].
  destruct (SearchAPIHelper.getAPIParams ui) as [e' | expected]; [reflexivity |].
  cbv zeta.
  destruct (matched (compareParams (parseUrl (request_url request)) expected));
    [discriminate | reflexivity].
Qed.

(** C3, as the code has it. Validating with no captured request (a fresh
    helper, a helper that was started and saw no request, a helper whose
    capture was consumed) throws the no-request error and changes
    nothing. Validating with a captured request stops the session when
    the validation passes: the handlers are removed and the capture is
    cleared, so that a second validation throws the no-request error. *)
Theorem C3_interception_lifecycle :
  (forall (ui : SearchParameters) (h : helper),
     interceptedRequest h = None ->
     validateInterceptedRequest ui h = (throw NoInterceptedRequestError, h))
  /\ (forall ui : SearchParameters,
        validateInterceptedRequest ui idle = (throw NoInterceptedRequestError, idle))
  /\ (forall (ui : SearchParameters) (h : helper),
        fst (validateInterceptedRequest ui (snd (startInterception h)))
        = throw NoInterceptedRequestError)
  /\ (forall (ui ui' : SearchParameters) (h : helper) (request : Request),
        interceptedRequest h = Some request ->
        fst (validateInterceptedRequest ui h) = ok tt ->
        snd (validateInterceptedRequest ui h) = idle
        /\ validateInterceptedRequest ui' (snd (validateInterceptedRequest ui h))
           = (throw NoInterceptedRequestError, idle))
  /\ (forall (ui : SearchParameters) (h : helper) (request : Request)
             (expected : SearchAPIParams),
        interceptedRequest h = Some request ->
        SearchAPIHelper.getAPIParams ui = ok expected ->
        matched (compareParams (parseUrl (request_url request)) expected) = true ->
        validateInterceptedRequest ui h = (ok tt, idle))
  /\ (forall (ui : SearchParameters) (h : helper) (url : string)
             (expected : SearchAPIParams),
        route_matches url = true ->
        SearchAPIHelper.getAPIParams ui = ok expected ->
        matched (compareParams (parseUrl url) expected) = true ->
        validateInterceptedRequest ui
          (snd (page_requests {| request_url := url |} (snd (startInterception h))))
        = (ok tt, idle)).
Proof.
  assert (Hnone : forall ui h, interceptedRequest h = None ->
            validateInterceptedRequest ui h = (throw NoInterceptedRequestError, h)).
  { intros ui h H. now rewrite validateInterceptedRequest_cases, H. }
  assert (Hpass : forall ui h request expected,
            interceptedRequest h = Some request ->
            SearchAPIHelper.getAPIParams ui = ok expected ->
            matched (compareParams (parseUrl (request_url request)) expected) = true ->
            validateInterceptedRequest ui h = (ok tt, idle)).
  { intros ui h request expected Hreq Hui Hm.
    rewrite validateInterceptedRequest_cases, Hreq, Hui.
    cbv beta iota zeta delta [ok]. now rewrite Hm. }
  split; [exact Hnone |]. split; [intros ui; now apply Hnone |].
  split; [intros ui h; now rewrite Hnone |].
  split; [| split; [exact Hpass |]].
  - intros ui ui' h request Hreq Hok.
    rewrite validateInterceptedRequest_cases, Hreq in Hok |- *.
    destruct (SearchAPIHelper.getAPIParams ui) as [e | expected]; [discriminate Hok |].
    cbv zeta in Hok |- *.
    destruct (matched (compareParams (parseUrl (request_url request)) expected));
      [| discriminate Hok].
    split; [reflexivity |]. now apply Hnone.
  - intros ui h url expected Hurl Hui Hm.
    apply (Hpass ui _ {| request_url := url |} expected); [| exact Hui | exact Hm].
    unfold page_requests, startInterception, route_handler, bind, read, write, ret, ok.
    cbn [routes request_url fst snd]. rewrite Hurl. reflexivity.
Qed.

(** The whole cycle on a concrete request: start, the page asks for
    London's escorts, the validation passes and leaves the helper idle. *)
Lemma C3_interception_lifecycle_witness :
  validateInterceptedRequest
    {| category := Some "Escorts and Massages"; location := Some "London";
       keyword := None |}
    (snd (page_requests
            {| request_url :=
                 buildSearchAPIUrl
                   [("cat_id", VNumber (Int 88));
                    ("meta_code", VString "adult_services");
                    ("geo_id", VNumber (Int 7))] |}
            (snd (startInterception idle))))
  = (ok tt, idle).
Proof.
  destruct C3_interception_lifecycle as (_ & _ & _ & _ & _ & H).
  apply (H _ idle _ [("cat_id", VNumber (Int 88));
                     ("meta_code", VString "adult_services");
                     ("geo_id", VNumber (Int 7))]); reflexivity.
Defined.

(** C3 as stated fails when the validation does not pass: the captured
    request asks for [geo_id=7], the expectation is the empty location
    ([geo_id] 0); the call throws the mismatch, the capture and the
    handler stay, and a second call throws the same mismatch again
    instead of the no-request error. *)
Lemma C3_interception_lifecycle_counterexample :
  let ui := {| category := None; location := Some EmptyString; keyword := None |} in
  let h := armed_with (SEARCH_API_URL ++ "?geo_id=7") in
  interceptedRequest h <> None
  /\ snd (validateInterceptedRequest ui h) = h
  /\ snd (validateInterceptedRequest ui h) <> idle
  /\ fst (validateInterceptedRequest ui (snd (validateInterceptedRequest ui h)))
     = fst (validateInterceptedRequest ui h)
  /\ fst (validateInterceptedRequest ui (snd (validateInterceptedRequest ui h)))
     <> throw NoInterceptedRequestError.
Proof.
  cbv zeta. split; [discriminate |]. split; [reflexivity |].
  split; [vm_compute; discriminate |]. split; [reflexivity |].
  vm_compute. discriminate.
Qed.

(** ** Decoding a URL *)

Lemma decoded_cases (params : obj string) (k : string) (convert : string -> value) :
  decoded params k convert =
  match get params k with
  | Some (String c r) => Some (convert (String c r))
  | _ => None
  end.
Proof. unfold decoded. destruct (get params k) as [[| c r] |]; reflexivity. Qed.

(** C10. The presence tests of [toSearchAPIParams] are truthiness tests
    on the raw string: a recognised parameter whose raw value is empty is
    absent from the result; so is, for a URL, a recognised parameter
    whose value in the query (the last one, if the query repeats the
    name) is empty, as in [meta_code=] or [country=]; and no URL decodes
    to a field equal to the empty string. *)
Theorem C10_empty_value_absent :
  (forall (params : obj string) (k : string),
     In k ["geo_id"; "cat_id"; "meta_code"; "summary"; "country"; "country_id"] ->
     get params k = Some EmptyString ->
     get (toSearchAPIParams params) k = None)
  /\ (forall (url k : string),
        In k ["geo_id"; "cat_id"; "meta_code"; "summary"; "country"; "country_id"] ->
        get (rev (URL_searchParams url)) k = Some EmptyString ->
        get (parseUrl url) k = None)
  /\ (forall (url k : string),
        In k ["geo_id"; "cat_id"; "meta_code"; "summary"; "country"; "country_id"] ->
        (forall v, In (k, v) (URL_searchParams url) -> v = EmptyString) ->
        get (parseUrl url) k = None)
  /\ (forall url k : string, get (parseUrl url) k <> Some (VString EmptyString))
  /\ URL_searchParams (SEARCH_API_URL ++ "?meta_code=&country=&geo_id=7")
     = [("meta_code", EmptyString); ("country", EmptyString); ("geo_id", "7")]
  /\ parseUrl (SEARCH_API_URL ++ "?meta_code=&country=&geo_id=7")
     = [("geo_id", VNumber (Int 7))].
Proof.
  assert (Hparams : forall (params : obj string) (k : string),
            In k recognized_fields ->
            (forall s, get params k = Some s -> s = EmptyString) ->
            get (toSearchAPIParams params) k = None).
  { intros params k Hin Hempty.
    unfold recognized_fields in Hin. apply in_app_or in Hin.
    assert (Hdec : forall convert, decoded params k convert = None).
    { intros convert. rewrite decoded_cases.
      destruct (get params k) as [[| c r] |]; try reflexivity.
      discriminate (Hempty _ eq_refl). }
    destruct Hin as [Hin | Hin].
    - now rewrite (toSearchAPIParams_integer _ _ Hin).
    - now rewrite (toSearchAPIParams_string _ _ Hin). }
  assert (Hsame : forall k,
            In k ["geo_id"; "cat_id"; "meta_code"; "summary"; "country"; "country_id"] ->
            In k recognized_fields).
  { intros k. unfold recognized_fields, integer_fields, string_fields. simpl. tauto. }
  split; [| split; [| split; [| split; [exact parseUrl_no_empty_string | split; reflexivity]]]].
  - intros params k Hin Hget. apply (Hparams _ _ (Hsame _ Hin)).
    intros s. rewrite Hget. now intros [= <-].
  - intros url k Hin Hlast. apply (Hparams _ _ (Hsame _ Hin)).
    intros s. rewrite (parseQueryParams_get _ _ (recognized_not_proto _ (Hsame _ Hin))).
    rewrite Hlast. now intros [= <-].
  - intros url k Hin Hempty. apply (Hparams _ _ (Hsame _ Hin)).
    intros s Hs. apply Hempty.
    rewrite (parseQueryParams_get _ _ (recognized_not_proto _ (Hsame _ Hin))) in Hs.
    apply get_In, in_rev in Hs. exact Hs.
Qed.

Lemma C10_empty_value_absent_witness :
  get (parseUrl (SEARCH_API_URL ++ "?meta_code=&country=&geo_id=7")) "meta_code" = None.
Proof.
  destruct C10_empty_value_absent as (_ & H & _).
  apply H; [simpl; tauto | reflexivity].
Defined.

(** C5, as the code has it. For every URL the decoded set holds, for
    each recognised field, the last value the query gives it, provided
    that value is not empty: converted by [parseInt] for [geo_id],
    [cat_id] and [summary], as it is for the others. [parseInt] reads
    the integer written in decimal digits as the nearest double, hence
    exactly in the safe range; it reads a printed integer of magnitude
    below [10^21] back; it skips what follows the leading digits; and it
    returns [NaN] exactly when the value does not begin, after white space
    and an optional sign, with a decimal digit, as when it starts with a
    letter: the field is then present and holds [NaN]. Parameters of
    other names are ignored, and decoding returns a set for every URL. *)
Theorem C5_parse_url (url : string) :
  (forall k, In k ["geo_id"; "cat_id"; "summary"] ->
     get (parseUrl url) k =
     match get (rev (URL_searchParams url)) k with
     | Some (String c r) => Some (VNumber (parseInt (String c r)))
     | _ => None
     end)
  /\ (forall k, In k ["meta_code"; "country"; "country_id"] ->
        get (parseUrl url) k =
        match get (rev (URL_searchParams url)) k with
        | Some (String c r) => Some (VString (String c r))
        | _ => None
        end)
  /\ (forall k,
        ~ In k ["geo_id"; "cat_id"; "summary"; "meta_code"; "country"; "country_id"] ->
        get (parseUrl url) k = None)
  /\ (forall url' : string,
        (forall k,
           In k ["geo_id"; "cat_id"; "summary"; "meta_code"; "country"; "country_id"] ->
           get (rev (URL_searchParams url')) k = get (rev (URL_searchParams url)) k) ->
        parseUrl url' = parseUrl url)
  /\ (forall k m, In k ["geo_id"; "cat_id"; "summary"] ->
        get (rev (URL_searchParams url)) k = Some (digits m) ->
        get (parseUrl url) k = Some (VNumber (to_double m)))
  /\ (forall k m rest, In k ["geo_id"; "cat_id"; "summary"] ->
        first_digit rest = false ->
        get (rev (URL_searchParams url)) k = Some (digits m ++ rest) ->
        get (parseUrl url) k = Some (VNumber (to_double m)))
  /\ (forall k z, In k ["geo_id"; "cat_id"; "summary"] ->
        isSafeInteger z = true ->
        get (rev (URL_searchParams url)) k = Some (digits z) ->
        get (parseUrl url) k = Some (VNumber (Int z)))
  /\ (forall k z, In k ["geo_id"; "cat_id"; "summary"] ->
        is_double z = true -> (Z.abs z <? 10 ^ 21)%Z = true ->
        get (rev (URL_searchParams url)) k = Some (Number_toString (Int z)) ->
        get (parseUrl url) k = Some (VNumber (Int z)))
  /\ (forall k c r, In k ["geo_id"; "cat_id"; "summary"] ->
        get (rev (URL_searchParams url)) k = Some (String c r) ->
        is_letter c = true ->
        get (parseUrl url) k = Some (VNumber NaN))
  /\ (forall k c r, In k ["geo_id"; "cat_id"; "summary"] ->
        get (rev (URL_searchParams url)) k = Some (String c r) ->
        (get (parseUrl url) k = Some (VNumber NaN)
         <-> begins_with_integer (String c r) = false))
  /\ parseUrl (SEARCH_API_URL ++ "?geo_id=12abc&cat_id=abc&summary=&x=1&meta_code=a+b%2F")
     = [("geo_id", VNumber (Int 12)); ("cat_id", VNumber NaN);
        ("meta_code", VString "a b/")].
Proof.
  assert (Hrec : forall k,
            In k ["geo_id"; "cat_id"; "summary"; "meta_code"; "country"; "country_id"] ->
            k <> "__proto__").
  { intros k Hin. apply recognized_not_proto. exact Hin. }
  assert (Hint : forall k, In k ["geo_id"; "cat_id"; "summary"] ->
            get (parseUrl url) k =
            match get (rev (URL_searchParams url)) k with
            | Some (String c r) => Some (VNumber (parseInt (String c r)))
            | _ => None
            end).
  { intros k Hin. unfold parseUrl.
    rewrite (toSearchAPIParams_integer _ _ Hin), decoded_cases, parseQueryParams_get.
    - reflexivity.
    - apply Hrec. simpl in *. tauto. }
  assert (Hread : forall k s n, In k ["geo_id"; "cat_id"; "summary"] ->
            get (rev (URL_searchParams url)) k = Some s ->
            truthy_string s = true -> parseInt s = n ->
            get (parseUrl url) k = Some (VNumber n)).
  { intros k s n Hin Hget Hs Hn. rewrite (Hint k Hin), Hget.
    destruct s; [discriminate Hs | now rewrite Hn]. }
  split; [exact Hint |].
  split; [| split; [| split; [| split; [| split; [| split; [| split; [| split; [| split]]]]]]]].
  - intros k Hin. unfold parseUrl.
    rewrite (toSearchAPIParams_string _ _ Hin), decoded_cases, parseQueryParams_get.
    + reflexivity.
    + apply Hrec. simpl in *. tauto.
  - intros k Hout. apply toSearchAPIParams_other.
    unfold recognized_fields, integer_fields, string_fields. exact Hout.
  - intros url' H. apply toSearchAPIParams_only_recognized.
    intros k Hin. rewrite !parseQueryParams_get by now apply recognized_not_proto.
    apply H. exact Hin.
  - intros k m Hin Hget.
    exact (Hread k _ _ Hin Hget (digits_truthy m) (parseInt_digits m)).
  - intros k m rest Hin Hrest Hget.
    exact (Hread k _ _ Hin Hget (truthy_app_l _ _ (digits_truthy m))
             (parseInt_digits_app m rest Hrest)).
  - intros k z Hin Hz Hget. rewrite <- (to_double_safe z Hz).
    exact (Hread k _ _ Hin Hget (digits_truthy z) (parseInt_digits z)).
  - intros k z Hin Hz Hsmall Hget.
    exact (Hread k _ _ Hin Hget (Number_toString_truthy (Int z))
             (parseInt_Number_toString z Hz Hsmall)).
  - intros k c r Hin Hget Hc. rewrite (Hint k Hin), Hget.
    now rewrite (parseInt_letter c r Hc).
  - intros k c r Hin Hget. rewrite (Hint k Hin), Hget.
    rewrite <- parseInt_NaN_iff. split; [now intros [= ->] | now intros ->].
  - reflexivity.
Qed.

Lemma C5_parse_url_witness :
  get (parseUrl (SEARCH_API_URL ++ "?geo_id=abc")) "geo_id" = Some (VNumber NaN).
Proof.
  destruct (C5_parse_url (SEARCH_API_URL ++ "?geo_id=abc"))
    as (_ & _ & _ & _ & _ & _ & _ & _ & H & _).
  apply (H "geo_id" "a"%char "bc"); [simpl; tauto | reflexivity | reflexivity].
Defined.

(** C5 as stated fails on a value that is no number: [geo_id=abc]
    decodes to a set in which [geo_id] is present and holds [NaN]. *)
Lemma C5_parse_url_counterexample :
  parseInt "abc" = NaN
  /\ parseUrl (SEARCH_API_URL ++ "?geo_id=abc") = [("geo_id", VNumber NaN)]
  /\ get (parseUrl (SEARCH_API_URL ++ "?geo_id=abc")) "geo_id" <> None.
Proof. split; [reflexivity |]. split; [reflexivity |]. vm_compute. discriminate. Qed.

(* ===================================================================== *)
(** * Further properties of the code *)
(* ===================================================================== *)

(** ** The translator and the tables *)

Lemma category_entry (label : string) (m : CategoryMapping) :
  get CATEGORY_MAPPINGS label = Some m ->
  (label = "Home Appliances" /\
   m = {| cm_label := "Home Appliances"; cm_cat_id := 93;
          cm_meta_code := "appliances_furniture" |})
  \/ (label = "Escorts and Massages" /\
      m = {| cm_label := "Escorts and Massages"; cm_cat_id := 88;
             cm_meta_code := "adult_services" |}).
Proof.
  intros H. apply get_In in H.
  destruct H as [H | [H | []]]; injection H as <- <-; auto.
Qed.

Lemma location_entry (label : string) (m : LocationMapping) :
  get LOCATION_MAPPINGS label = Some m ->
  (label = "London" /\ m = {| lm_label := "London"; lm_geo_id := 7 |})
  \/ (label = EmptyString /\ m = {| lm_label := EmptyString; lm_geo_id := 0 |}).
Proof.
  intros H. apply get_In in H.
  destruct H as [H | [H | []]]; injection H as <- <-; auto.
Qed.

(** The translation, block by block. *)
Lemma translate_blocks (ui : SearchParameters) :
  translate ui =
  match SearchAPIHelper.map_category ui [] with
  | inl e => inl e
  | inr apiParams => SearchAPIHelper.map_location ui apiParams
  end.
Proof. reflexivity. Qed.

(** The location block fails as the category block does: a location
    label with no entry in the location table (and not the name of an
    inherited member) makes the translation throw the location error,
    which names the label and the file to edit, provided the category
    block passed; when both labels are unmapped, the category error is
    the one thrown. *)
Theorem X1_unknown_location (ui : SearchParameters) (label : string) :
  location ui = Some label ->
  get LOCATION_MAPPINGS label = None ->
  inherited label = false ->
  (forall apiParams,
     SearchAPIHelper.map_category ui [] = ok apiParams ->
     translate ui = throw (Error (SearchAPIHelper.location_not_found label)))
  /\ (forall e,
        SearchAPIHelper.map_category ui [] = throw e -> translate ui = throw e)
  /\ (exists rest,
        SearchAPIHelper.location_not_found label
        = "Location mapping not found for: " ++ dq ++ label ++ dq ++ rest)
  /\ occurs_in "Add mapping to api/mappings/location-mappings.ts"
               (SearchAPIHelper.location_not_found label).
Proof.
  intros Hloc Hget Hinh. split; [| split; [| split]].
  - intros apiParams Hcat. rewrite translate_blocks, Hcat.
    unfold ok, SearchAPIHelper.map_location. rewrite Hloc.
    unfold getLocationMapping, lookup. now rewrite Hget, Hinh.
  - intros e Hcat. now rewrite translate_blocks, Hcat.
  - eexists. reflexivity.
  - exists ("Location mapping not found for: " ++ dq ++ label ++ dq ++ "." ++ nl).
    eexists. unfold SearchAPIHelper.location_not_found.
    rewrite !string_app_assoc. reflexivity.
Qed.

Lemma X1_unknown_location_witness :
  translate {| category := Some "Home Appliances"; location := Some "Paris";
               keyword := None |}
  = throw (Error (SearchAPIHelper.location_not_found "Paris")).
Proof.
  destruct (X1_unknown_location
              {| category := Some "Home Appliances"; location := Some "Paris";
                 keyword := None |} "Paris" eq_refl eq_refl eq_refl) as (H & _).
  exact (H _ eq_refl).
Defined.

(** The translation agrees with the accessors of the tables: whenever it
    succeeds, the fields it sets for a (non-empty) category are
    [getCategoryId] and [getMetaCode] of the label, and the field it sets
    for a location is [getGeoId] of the label; and an accessor returns
    [undefined] exactly when the table has no entry for the label. *)
Theorem X2_translate_accessors (ui : SearchParameters) (r : SearchAPIParams) :
  translate ui = ok r ->
  (forall c s, category ui = Some (String c s) ->
     prop r "cat_id" = getCategoryId (String c s) /\
     prop r "meta_code" = getMetaCode (String c s))
  /\ (forall label, location ui = Some label ->
        prop r "geo_id" = getGeoId label)
  /\ (forall label,
        (getCategoryId label = VUndefined <-> get CATEGORY_MAPPINGS label = None)
        /\ (getMetaCode label = VUndefined <-> get CATEGORY_MAPPINGS label = None)
        /\ (getGeoId label = VUndefined <-> get LOCATION_MAPPINGS label = None)).
Proof.
  intros Hr. split; [| split].
  - intros c s Hcat. revert Hr.
    unfold translate, SearchAPIHelper.mapToAPIParams, SearchAPIHelper.map_category,
      SearchAPIHelper.map_location, getCategoryId, getMetaCode,
      getCategoryMapping, getLocationMapping, ok, throw.
    rewrite Hcat. cbn [truthy_string].
    destruct (lookup CATEGORY_MAPPINGS (String c s)) as [m | name |];
      [| | discriminate];
      (destruct (location ui) as [l |];
       [destruct (lookup LOCATION_MAPPINGS l) as [m' | name' |]; [| | discriminate] |]);
      intros [= <-]; split; reflexivity.
  - intros label Hloc. revert Hr.
    unfold translate, SearchAPIHelper.mapToAPIParams, SearchAPIHelper.map_category,
      SearchAPIHelper.map_location, getGeoId,
      getCategoryMapping, getLocationMapping, ok, throw.
    rewrite Hloc.
    destruct (category ui) as [[| c s] |]; cbn [truthy_string];
      try (destruct (lookup CATEGORY_MAPPINGS (String c s)) as [m | name |];
           [| | discriminate]);
      (destruct (lookup LOCATION_MAPPINGS label) as [m' | name' |]; [| | discriminate]);
      intros [= <-]; reflexivity.
  - intros label. unfold getCategoryId, getMetaCode, getGeoId, lookup.
    repeat split;
      try (destruct (get CATEGORY_MAPPINGS label); [discriminate | reflexivity]);
      try (destruct (get LOCATION_MAPPINGS label); [discriminate | reflexivity]);
      intros ->; destruct (inherited label); reflexivity.
Qed.

Lemma X2_translate_accessors_witness :
  prop [("cat_id", VNumber (Int 93)); ("meta_code", VString "appliances_furniture");
        ("geo_id", VNumber (Int 7))] "geo_id"
  = getGeoId "London".
Proof.
  destruct (X2_translate_accessors
              {| category := Some "Home Appliances"; location := Some "London";
                 keyword := None |}
              [("cat_id", VNumber (Int 93));
               ("meta_code", VString "appliances_furniture");
               ("geo_id", VNumber (Int 7))] eq_refl) as (_ & H & _).
  exact (H "London" eq_refl).
Defined.

(** The translation sets the fields of the labels it is given and no
    other: [cat_id] and [meta_code], in this order, exactly when the
    category is a non-empty label, then [geo_id] exactly when a location
    is given; it never sets a default ([summary], [country],
    [country_id]); and the keyword has no part in the result. *)
Theorem X3_translate_fields (ui : SearchParameters) (r : SearchAPIParams) :
  translate ui = ok r ->
  keys r =
    (match category ui with
     | Some (String _ _) => ["cat_id"; "meta_code"]
     | _ => []
     end ++
     match location ui with
     | Some _ => ["geo_id"]
     | None => []
     end)%list
  /\ get r "summary" = None /\ get r "country" = None /\ get r "country_id" = None
  /\ (forall kw,
        translate {| category := category ui; location := location ui;
                     keyword := kw |} = ok r).
Proof.
  intros Hr. split; [| split; [| split; [| split]]];
    try (intros kw; exact Hr);
    revert Hr;
    unfold translate, SearchAPIHelper.mapToAPIParams, SearchAPIHelper.map_category,
      SearchAPIHelper.map_location, getCategoryMapping, getLocationMapping, ok, throw;
    (destruct (category ui) as [[| c s] |]; cbn [truthy_string];
     try (destruct (lookup CATEGORY_MAPPINGS (String c s)) as [m | name |];
          [| | discriminate]));
    (destruct (location ui) as [l |];
     [destruct (lookup LOCATION_MAPPINGS l) as [m' | name' |]; [| | discriminate] |]);
    intros [= <-]; reflexivity.
Qed.

Lemma X3_translate_fields_witness :
  keys [("cat_id", VNumber (Int 88)); ("meta_code", VString "adult_services")]
  = ["cat_id"; "meta_code"].
Proof.
  destruct (X3_translate_fields
              {| category := Some "Escorts and Massages"; location := None;
                 keyword := Some "conditioner" |}
              [("cat_id", VNumber (Int 88)); ("meta_code", VString "adult_services")]
              eq_refl) as (H & _).
  exact H.
Defined.

(** ** A direct search and its validation *)

Lemma no_slash_all_chars (s : string) : no_slash s = all_chars (is_not "/") s.
Proof. induction s as [| c s IH]; simpl; [reflexivity | now rewrite IH]. Qed.

Lemma query_char_not_slash (c : ascii) : query_char c = true -> is_not "/" c = true.
Proof. intros H. each_byte c; vm_compute in H; try discriminate H; reflexivity. Qed.

Lemma strip_prefix_app (p s : string) : strip_prefix p (p ++ s) = Some s.
Proof.
  induction p as [| c p IH]; simpl; [now destruct s |].
  now rewrite Ascii.eqb_refl.
Qed.

Lemma built_url_matches (params : SearchAPIParams) :
  route_matches (buildSearchAPIUrl params) = true.
Proof.
  unfold route_matches, buildSearchAPIUrl. rewrite strip_prefix_app.
  rewrite no_slash_all_chars, all_chars_app.
  rewrite (all_chars_impl _ _ _ query_char_not_slash (toString_query_chars _)).
  reflexivity.
Qed.

Lemma built_url_captured (params : SearchAPIParams) (h : helper) :
  snd (page_requests {| request_url := buildSearchAPIUrl params |}
         (snd (startInterception h)))
  = {| routes := S (routes h);
       interceptedRequest := Some {| request_url := buildSearchAPIUrl params |} |}.
Proof.
  unfold page_requests, startInterception, route_handler, bind, read, write, ret, ok.
  cbn [routes request_url fst snd]. rewrite built_url_matches. reflexivity.
Qed.

(** Every URL the builder produces is one the interception pattern
    matches, whatever the parameters hold (a [/] in a value travels as
    [%2F]); so a helper that was started and sees the request captures
    it. *)
Theorem X4_built_url_is_intercepted (params : SearchAPIParams) (h : helper) :
  route_matches (buildSearchAPIUrl params) = true
  /\ interceptedRequest
       (snd (page_requests {| request_url := buildSearchAPIUrl params |}
               (snd (startInterception h))))
     = Some {| request_url := buildSearchAPIUrl params |}.
Proof.
  split; [apply built_url_matches |]. now rewrite built_url_captured.
Qed.

(** The translated parameters of a request, once built into a URL and
    decoded, match themselves. *)
Lemma translated_matches_itself (ui : SearchParameters) (r : SearchAPIParams) :
  translate ui = ok r ->
  matched (compareParams (parseUrl (buildSearchAPIUrl r)) r) = true.
Proof.
  unfold translate, SearchAPIHelper.mapToAPIParams, SearchAPIHelper.map_category,
    SearchAPIHelper.map_location, getCategoryMapping, getLocationMapping, lookup,
    ok, throw.
  destruct (category ui) as [[| c s] |]; cbn [truthy_string];
    try (destruct (get CATEGORY_MAPPINGS (String c s)) as [m |] eqn:Ec;
         [destruct (category_entry _ _ Ec) as [[_ ->] | [_ ->]]
         | destruct (inherited (String c s)); [| discriminate]]);
    (destruct (location ui) as [l |];
     [destruct (get LOCATION_MAPPINGS l) as [m' |] eqn:El;
      [destruct (location_entry _ _ El) as [[_ ->] | [_ ->]]
      | destruct (inherited l); [| discriminate]] |]);
    intros [= <-]; vm_compute; reflexivity.
Qed.

(** A direct search validates against its own request: when the labels
    of [ui] translate, the response to the URL that [search(ui)] requests
    passes [validateResponse] for [ui] as soon as its status is a
    success; and [validateResponse] fails on the status alone, before
    anything else, when it is not. *)
Theorem X5_search_validates (ui : SearchParameters) (url : string)
    (response : APIResponse) :
  SearchAPIHelper.search_url ui = ok url ->
  response_url response = url ->
  (toBeOK response = ok tt -> validateResponse response ui = ok tt)
  /\ (toBeOK response = throw ExpectFailed ->
      validateResponse response ui = throw ExpectFailed).
Proof.
  unfold SearchAPIHelper.search_url. intros Hurl Hresp.
  destruct (SearchAPIHelper.mapToAPIParams ui) as [e | r] eqn:Hui; [discriminate |].
  injection Hurl as <-. split; intros Hok; unfold validateResponse; rewrite Hok.
  - unfold SearchAPIHelper.getAPIParams. rewrite Hui, Hresp.
    cbv beta iota zeta delta [ok]. fold (parseUrl (buildSearchAPIUrl r)).
    now rewrite (translated_matches_itself ui r Hui).
  - reflexivity.
Qed.

Lemma X5_search_validates_witness :
  validateResponse
    {| status := 200;
       response_url :=
         "https://search.vivastreet.co.uk/ajax/regions_tree.php?summary=1&country=GB&country_id=GB&cat_id=93&meta_code=appliances_furniture&geo_id=0" |}
    {| category := Some "Home Appliances"; location := Some EmptyString;
       keyword := Some "conditioner" |}
  = ok tt.
Proof.
  destruct (X5_search_validates
              {| category := Some "Home Appliances"; location := Some EmptyString;
                 keyword := Some "conditioner" |}
              _ {| status := 200;
                   response_url :=
                     "https://search.vivastreet.co.uk/ajax/regions_tree.php?summary=1&country=GB&country_id=GB&cat_id=93&meta_code=appliances_furniture&geo_id=0" |}
              eq_refl eq_refl) as (H & _).
  exact (H eq_refl).
Defined.

(** ** Runs of the interception session *)

Lemma page_requests_state (request : Request) (h : helper) :
  snd (page_requests request h) =
  if (0 <? routes h)%nat && route_matches (request_url request)
  then {| routes := routes h; interceptedRequest := Some request |}
  else h.
Proof.
  unfold page_requests, route_handler, bind, read, write, ret, ok.
  cbv beta iota.
  destruct ((0 <? routes h)%nat && route_matches (request_url request)); reflexivity.
Qed.

Lemma validate_state (ui : SearchParameters) (h : helper) :
  snd (validateInterceptedRequest ui h) = h \/
  snd (validateInterceptedRequest ui h) = idle.
Proof.
  rewrite validateInterceptedRequest_cases.
  destruct (interceptedRequest h) as [request |]; [| now left].
  destruct (SearchAPIHelper.getAPIParams ui) as [e | expected]; [now left |].
  cbv zeta.
  destruct (matched (compareParams (parseUrl (request_url request)) expected));
    [now right | now left].
Qed.

Lemma capture_sound_step (h : helper) (e : event) :
  capture_sound h -> capture_sound (after_event h e).
Proof.
  intros Hinv. destruct e as [| | request | ui]; cbn [after_event].
  - intros r. discriminate.
  - intros r. discriminate.
  - rewrite page_requests_state.
    destruct ((0 <? routes h)%nat && route_matches (request_url request)) eqn:E;
      [| exact Hinv].
    apply andb_true_iff in E. destruct E as [E1 E2].
    intros r [= <-]. cbn [routes]. split; [now apply Nat.ltb_lt | exact E2].
  - destruct (validate_state ui h) as [-> | ->]; [exact Hinv |].
    intros r. discriminate.
Qed.

(** Through any sequence of calls and page requests, starting from a
    fresh helper, a captured request is always one that the endpoint's
    pattern matches and that was seen while a handler was registered;
    and [stopInterception] brings the helper back to idle from wherever
    the sequence has led, once or several times in a row. *)
Theorem X6_session_invariant (es : list event) :
  (forall r,
     interceptedRequest (after_events idle es) = Some r ->
     (0 < routes (after_events idle es))%nat /\
     route_matches (request_url r) = true)
  /\ after_events idle (es ++ [Stop]) = idle
  /\ after_events idle (es ++ [Stop; Stop]) = idle.
Proof.
  split; [| split].
  - change (capture_sound (after_events idle es)).
    unfold after_events.
    assert (H : forall h, capture_sound h -> capture_sound (fold_left after_event es h)).
    { induction es as [| e es IH]; intros h Hh; [exact Hh |].
      apply IH, capture_sound_step, Hh. }
    apply H. intros r. discriminate.
  - unfold after_events. now rewrite fold_left_app.
  - unfold after_events. now rewrite fold_left_app.
Qed.

Lemma find_app {A} (f : A -> bool) (a b : list A) :
  find f (a ++ b) = match find f a with Some x => Some x | None => find f b end.
Proof.
  induction a as [| x a IH]; simpl; [reflexivity |].
  destruct (f x); [reflexivity | exact IH].
Qed.

(** The handler keeps one request, the latest: after the page has
    issued any number of requests, an armed helper holds the last of
    them that the pattern matches (what it held before, if none does),
    and a helper without a handler holds what it held. *)
Theorem X7_last_request_wins (requests : list Request) (h : helper) :
  ((0 < routes h)%nat ->
   interceptedRequest (after_events h (map Requests requests)) =
   match last_matching requests with
   | Some r => Some r
   | None => interceptedRequest h
   end)
  /\ (routes h = 0%nat -> after_events h (map Requests requests) = h).
Proof.
  split.
  - revert h. induction requests as [| r rs IH]; intros h Hh; [reflexivity |].
    unfold after_events in *. cbn [map fold_left after_event].
    rewrite page_requests_state.
    assert (E : (0 <? routes h)%nat = true) by now apply Nat.ltb_lt.
    rewrite E. cbn [andb].
    unfold last_matching in *. cbn [rev]. rewrite find_app. cbn [find].
    destruct (route_matches (request_url r)) eqn:Hm.
    + rewrite IH by exact Hh. cbn [routes interceptedRequest].
      destruct (find _ (rev rs)); reflexivity.
    + rewrite IH by exact Hh. destruct (find _ (rev rs)); reflexivity.
  - revert h. induction requests as [| r rs IH]; intros h Hh; [reflexivity |].
    unfold after_events in *. cbn [map fold_left after_event].
    rewrite page_requests_state, Hh. cbn [Nat.ltb Nat.leb andb].
    now apply IH.
Qed.

Lemma X7_last_request_wins_witness :
  interceptedRequest
    (after_events (snd (startInterception idle))
       (map Requests
          [ {| request_url := SEARCH_API_URL ++ "?geo_id=7" |};
            {| request_url := "https://www.vivastreet.co.uk/" |};
            {| request_url := SEARCH_API_URL ++ "?geo_id=0" |};
            {| request_url := SEARCH_API_URL ++ "/other" |} ]))
  = Some {| request_url := SEARCH_API_URL ++ "?geo_id=0" |}.
Proof.
  destruct (X7_last_request_wins
              [ {| request_url := SEARCH_API_URL ++ "?geo_id=7" |};
                {| request_url := "https://www.vivastreet.co.uk/" |};
                {| request_url := SEARCH_API_URL ++ "?geo_id=0" |};
                {| request_url := SEARCH_API_URL ++ "/other" |} ]
              (snd (startInterception idle))) as (H & _).
  rewrite H; [reflexivity | cbn; lia].
Defined.

(** ** The shape of a decoded parameter set *)

Lemma toSearchAPIParams_canonical (params : obj string) :
  toSearchAPIParams params =
  somes (map (fun kc => option_map (pair (fst kc)) (decoded params (fst kc) (snd kc)))
             field_converters).
Proof.
  unfold toSearchAPIParams, copy_if_truthy, decoded, field_converters.
  cbn [map fst snd].
  destruct (get params "geo_id") as [[| ? ?] |];
    destruct (get params "cat_id") as [[| ? ?] |];
    destruct (get params "meta_code") as [[| ? ?] |];
    destruct (get params "summary") as [[| ? ?] |];
    destruct (get params "country") as [[| ? ?] |];
    destruct (get params "country_id") as [[| ? ?] |];
    reflexivity.
Qed.

Lemma keys_somes_decoded (params : obj string) (l : list (string * (string -> value))) :
  keys (somes (map (fun kc => option_map (pair (fst kc))
                                (decoded params (fst kc) (snd kc))) l))
  = filter (raw_truthy params) (map fst l).
Proof.
  induction l as [| [k conv] l IH]; [reflexivity |].
  cbn [map fst snd filter]. unfold decoded at 1, raw_truthy at 1.
  destruct (get params k) as [[| c r] |]; cbn [option_map somes keys map fst];
    try exact IH.
  f_equal. exact IH.
Qed.

(** Whatever the raw parameters hold, the decoded set has a fixed shape:
    its properties are the recognised fields whose raw value is not
    empty, each once and in the order [geo_id], [cat_id], [meta_code],
    [summary], [country], [country_id] (the order of the query does not
    show); an integer field holds the number [parseInt] reads, a string
    field the raw string, never an empty one. *)
Theorem X8_decoded_shape (params : obj string) :
  keys (toSearchAPIParams params)
  = filter (raw_truthy params)
      ["geo_id"; "cat_id"; "meta_code"; "summary"; "country"; "country_id"]
  /\ NoDup (keys (toSearchAPIParams params))
  /\ (forall k v, In (k, v) (toSearchAPIParams params) ->
        exists c r,
          get params k = Some (String c r) /\
          ((In k ["geo_id"; "cat_id"; "summary"] /\
            v = VNumber (parseInt (String c r)))
           \/ (In k ["meta_code"; "country"; "country_id"] /\
               v = VString (String c r)))).
Proof.
  assert (Hkeys : keys (toSearchAPIParams params)
                  = filter (raw_truthy params)
                      ["geo_id"; "cat_id"; "meta_code"; "summary"; "country";
                       "country_id"]).
  { rewrite toSearchAPIParams_canonical. apply keys_somes_decoded. }
  assert (Hnd : NoDup (keys (toSearchAPIParams params))).
  { rewrite Hkeys. apply NoDup_filter.
    repeat constructor; simpl; intuition discriminate. }
  split; [exact Hkeys |]. split; [exact Hnd |].
  intros k v Hin.
  pose proof (In_get_NoDup _ _ _ Hnd Hin) as Hget.
  assert (Hk : In k recognized_fields).
  { destruct (in_dec string_dec k recognized_fields) as [H | H]; [exact H |].
    rewrite (toSearchAPIParams_other _ _ H) in Hget. discriminate. }
  unfold recognized_fields in Hk. apply in_app_or in Hk. destruct Hk as [Hk | Hk].
  - rewrite (toSearchAPIParams_integer _ _ Hk), decoded_cases in Hget.
    destruct (get params k) as [[| c r] |]; try discriminate.
    injection Hget as <-. exists c, r. split; [reflexivity |]. left. now split.
  - rewrite (toSearchAPIParams_string _ _ Hk), decoded_cases in Hget.
    destruct (get params k) as [[| c r] |]; try discriminate.
    injection Hget as <-. exists c, r. split; [reflexivity |]. right. now split.
Qed.

(** ** The raw round trip *)

(** What goes into a URL comes out of it: for every parameter set whose
    property names are strings of characters, and every name but
    [__proto__], the raw parameters parsed from the built URL give the
    name the [String] form of its value in the merge over the defaults,
    and nothing when the merge has no such property or holds [undefined]
    or [null] for it. A number comes out as [String] prints it. A string
    comes out as it has gone through the URL: a string of characters byte
    for byte (spaces, [&], [=], [%], [+], [#] and characters outside
    ASCII are restored as they were), a surrogate without its partner as
    U+FFFD. *)
Theorem X9_raw_round_trip (params : SearchAPIParams) :
  (forall k : string,
     k <> "__proto__" ->
     Forall (fun name => utf8_valid name = true) (keys params) ->
     get (parseQueryParams (buildSearchAPIUrl params)) k =
     match get (mergedParams params) k with
     | None | Some VUndefined | Some VNull => None
     | Some (VNumber n) => Some (Number_toString n)
     | Some (VString s) => Some (through_url s)
     end)
  /\ (forall s : string, utf8_valid s = true -> through_url s = s)
  /\ through_url lone_surrogate = REPLACEMENT.
Proof.
  split; [| split; [exact utf8_valid_through_url | reflexivity]].
  intros k Hk Hnames. rewrite (parseQueryParams_build params k Hk).
  - destruct (get (mergedParams params) k) as [[| | n | s] |]; try reflexivity.
    cbn [appended_value option_map String_]. f_equal.
    apply ascii_through_url, Number_toString_ascii.
  - intros k' Hin.
    assert (E : through_url k' = k').
    { unfold mergedParams in Hin. apply In_keys_spread in Hin.
      destruct Hin as [Hin | Hin].
      - apply ascii_through_url.
        destruct Hin as [<- | [<- | [<- | []]]]; reflexivity.
      - rewrite Forall_forall in Hnames. now apply utf8_valid_through_url, Hnames. }
    now rewrite E.
Qed.

Lemma X9_raw_round_trip_witness :
  get (parseQueryParams
         (buildSearchAPIUrl [("meta_code", VString "a b&c=d%+#/é")])) "meta_code"
  = Some "a b&c=d%+#/é".
Proof.
  destruct (X9_raw_round_trip [("meta_code", VString "a b&c=d%+#/é")]) as [H _].
  apply (H "meta_code"); [discriminate |].
  repeat constructor.
Defined.

(** ** Comparison and [NaN] *)

Lemma strict_equal_self (v : value) :
  strict_equal v v = true <-> v <> VNumber NaN.
Proof.
  rewrite strict_equal_spec. split; [tauto | intros H; now split].
Qed.

(** A decoded [NaN] (what a non-numeric [geo_id] or [cat_id] becomes)
    meets no expectation: when the expected set defines a compared field
    for which the actual set holds [NaN], the comparison fails and
    reports the line [<field>: expected <value>, got NaN], whatever the
    expected value, [NaN] included; and so a parameter set matches itself
    exactly when none of [cat_id], [geo_id], [meta_code] is [NaN] in it. *)
Theorem X10_nan_meets_no_expectation :
  (forall (actual expected : SearchAPIParams) (key : string),
     In key ["cat_id"; "geo_id"; "meta_code"] ->
     prop actual key = VNumber NaN ->
     prop expected key <> VUndefined ->
     matched (compareParams actual expected) = false
     /\ exists ds,
          differences (compareParams actual expected) = Some ds /\
          In (key ++ ": expected " ++ String_ (prop expected key) ++ ", got NaN") ds)
  /\ (forall a : SearchAPIParams,
        matched (compareParams a a) = true <->
        forall key, In key ["cat_id"; "geo_id"; "meta_code"] ->
          prop a key <> VNumber NaN).
Proof.
  split.
  - intros actual expected key Hin Hnan Hdef.
    assert (Hmis : mismatch actual expected key = true).
    { unfold mismatch. rewrite Hnan. cbn [strict_equal negb]. rewrite andb_true_r.
      apply negb_true_iff.
      destruct (strict_equal (prop expected key) VUndefined) eqn:E; [| reflexivity].
      apply strict_equal_undefined in E. contradiction. }
    assert (HinF : In key (filter (mismatch actual expected) paramsToCompare)).
    { apply filter_In. split; [exact Hin | exact Hmis]. }
    split.
    + rewrite compareParams_matched.
      destruct (forallb _ paramsToCompare) eqn:E; [| reflexivity].
      rewrite forallb_forall in E. specialize (E key Hin).
      rewrite Hmis in E. discriminate.
    + rewrite compareParams_differences.
      destruct (filter (mismatch actual expected) paramsToCompare) as [| k0 ks] eqn:E;
        [destruct HinF |].
      eexists. split; [reflexivity |].
      apply (in_map (difference_at actual expected)) in HinF.
      unfold difference_at at 1, difference in HinF. rewrite Hnan in HinF.
      exact HinF.
  - intros a. rewrite compareParams_matched, forallb_forall. unfold paramsToCompare.
    split; intros H key Hin.
    + specialize (H key Hin). apply negb_true_iff in H.
      pose proof (proj1 (mismatch_false a a key) H) as H'.
      intros Hnan. rewrite Hnan in H'.
      assert (Hd : VNumber NaN <> VUndefined) by discriminate.
      specialize (H' Hd). discriminate.
    + apply negb_true_iff, mismatch_false. intros _.
      apply strict_equal_self. now apply H.
Qed.

Lemma X10_nan_meets_no_expectation_witness :
  matched (compareParams (parseUrl (SEARCH_API_URL ++ "?geo_id=abc"))
                         [("geo_id", VNumber (Int 7))]) = false.
Proof.
  destruct X10_nan_meets_no_expectation as (H & _).
  apply (H (parseUrl (SEARCH_API_URL ++ "?geo_id=abc"))
           [("geo_id", VNumber (Int 7))] "geo_id");
    [simpl; tauto | reflexivity | discriminate].
Defined.

(** ** The two entry points of validation *)

(** A response with a success status and an intercepted request of the
    same URL are judged alike: one validation passes exactly when the
    other does, an unmapped label throws the same error from both, and a
    mismatch throws from both the same report (the same lines and the
    same two sets) under two different headlines. The intercepted path
    leaves the helper as it was in both failures. *)
Theorem X11_entry_points_agree (ui : SearchParameters) (url : string)
    (response : APIResponse) (h : helper) :
  toBeOK response = ok tt ->
  response_url response = url ->
  interceptedRequest h = Some {| request_url := url |} ->
  (validateResponse response ui = ok tt <->
   validateInterceptedRequest ui h = (ok tt, idle))
  /\ (forall e,
        SearchAPIHelper.getAPIParams ui = throw e ->
        validateResponse response ui = throw e /\
        validateInterceptedRequest ui h = (throw e, h))
  /\ (forall expected,
        SearchAPIHelper.getAPIParams ui = ok expected ->
        matched (compareParams (parseUrl url) expected) = false ->
        validateResponse response ui =
          throw (Error (mismatch_message response_headline
                          (compareParams (parseUrl url) expected)))
        /\ validateInterceptedRequest ui h =
           (throw (Error (mismatch_message intercepted_headline
                            (compareParams (parseUrl url) expected))), h)).
Proof.
  intros Hok Hurl Hreq.
  assert (Hresp : validateResponse response ui =
                  match SearchAPIHelper.getAPIParams ui with
                  | inl e => inl e
                  | inr expected =>
                      if matched (compareParams (parseUrl url) expected) then ok tt
                      else throw (Error (mismatch_message response_headline
                                           (compareParams (parseUrl url) expected)))
                  end).
  { unfold validateResponse. rewrite Hok, Hurl. cbv beta iota zeta delta [ok].
    fold (parseUrl url).
    destruct (SearchAPIHelper.getAPIParams ui) as [e | expected]; [reflexivity |].
    destruct (matched (compareParams (parseUrl url) expected)); reflexivity. }
  rewrite Hresp, validateInterceptedRequest_cases, Hreq. cbn [request_url].
  split; [| split].
  - destruct (SearchAPIHelper.getAPIParams ui) as [e | expected].
    + split; discriminate.
    + cbv zeta. destruct (matched (compareParams (parseUrl url) expected));
        split; try discriminate; reflexivity.
  - intros e He. rewrite He. split; reflexivity.
  - intros expected He Hm. rewrite He. cbv beta iota zeta delta [ok].
    rewrite Hm. split; reflexivity.
Qed.

Lemma X11_entry_points_agree_witness :
  validateResponse {| status := 204; response_url := SEARCH_API_URL ++ "?geo_id=7" |}
    {| category := None; location := Some "London"; keyword := None |} = ok tt
  <-> validateInterceptedRequest
        {| category := None; location := Some "London"; keyword := None |}
        (armed_with (SEARCH_API_URL ++ "?geo_id=7")) = (ok tt, idle).
Proof.
  apply (X11_entry_points_agree
           {| category := None; location := Some "London"; keyword := None |}
           (SEARCH_API_URL ++ "?geo_id=7")
           {| status := 204; response_url := SEARCH_API_URL ++ "?geo_id=7" |}
           (armed_with (SEARCH_API_URL ++ "?geo_id=7"))); reflexivity.
Defined.

(** ** The page object's API checks *)

(** The page object's two-step check closes on the request of its own
    direct search: after [validateUISearchAPI], if the page issues the
    URL that [searchViaAPI] requests for the same category and location
    (whatever the keyword), [confirmAPIRequest] passes and leaves the
    helper idle; and [validateAPIResponse] passes on a successful
    response to that URL. *)
Theorem X12_page_object_check (category location keyword : option string)
    (url : string) (h : helper) :
  SearchResultsPage.searchViaAPI category location keyword = ok url ->
  SearchResultsPage.confirmAPIRequest category location
    (snd (page_requests {| request_url := url |}
            (snd (SearchResultsPage.validateUISearchAPI category location h))))
  = (ok tt, idle)
  /\ (forall response,
        response_url response = url -> toBeOK response = ok tt ->
        SearchResultsPage.validateAPIResponse response category location = ok tt).
Proof.
  unfold SearchResultsPage.searchViaAPI, SearchAPIHelper.search_url.
  intros Hurl.
  destruct (SearchAPIHelper.mapToAPIParams
              {| category := category; location := location; keyword := keyword |})
    as [e | r] eqn:Hui; [discriminate |].
  injection Hurl as <-.
  assert (Hui' : SearchAPIHelper.getAPIParams
                   {| category := category; location := location; keyword := None |}
                 = ok r) by exact Hui.
  pose proof (translated_matches_itself _ r Hui) as Hm.
  split.
  - unfold SearchResultsPage.confirmAPIRequest, SearchResultsPage.validateUISearchAPI.
    rewrite validateInterceptedRequest_cases.
    rewrite built_url_captured. cbn [interceptedRequest]. rewrite Hui'.
    cbv beta iota zeta delta [ok]. cbn [request_url]. now rewrite Hm.
  - intros response Hresp Hok.
    unfold SearchResultsPage.validateAPIResponse, validateResponse.
    rewrite Hok, Hui', Hresp. cbv beta iota zeta delta [ok].
    fold (parseUrl (buildSearchAPIUrl r)). now rewrite Hm.
Qed.

Lemma X12_page_object_check_witness :
  SearchResultsPage.confirmAPIRequest (Some "Escorts and Massages") (Some "London")
    (snd (page_requests
            {| request_url :=
                 "https://search.vivastreet.co.uk/ajax/regions_tree.php?summary=1&country=GB&country_id=GB&cat_id=88&meta_code=adult_services&geo_id=7" |}
            (snd (SearchResultsPage.validateUISearchAPI
                    (Some "Escorts and Massages") (Some "London") idle))))
  = (ok tt, idle).
Proof.
  destruct (X12_page_object_check (Some "Escorts and Massages") (Some "London")
              (Some "massage") _ idle eq_refl) as (H & _).
  exact H.
Defined.

(** ** Merging and building again *)

Lemma set_fresh {V} (o : obj V) (k : string) (v : V) :
  ~ In k (keys o) -> set k v o = (o ++ [(k, v)])%list.
Proof.
  induction o as [| [k0 v0] r IH]; simpl; intros H; [reflexivity |].
  destruct (String.eqb k0 k) eqn:E.
  - apply String.eqb_eq in E. subst k0. exfalso. apply H. now left.
  - rewrite IH; [reflexivity |]. intros Hin. apply H. now right.
Qed.

Lemma set_in_place {V} (pre ts : obj V) (k : string) (v w : V) :
  ~ In k (keys pre) ->
  set k v (pre ++ (k, w) :: ts)%list = (pre ++ (k, v) :: ts)%list.
Proof.
  induction pre as [| [k0 v0] r IH]; simpl; intros H.
  - now rewrite String.eqb_refl.
  - destruct (String.eqb k0 k) eqn:E.
    + apply String.eqb_eq in E. subst k0. exfalso. apply H. now left.
    + rewrite IH; [reflexivity |]. intros Hin. apply H. now right.
Qed.

Lemma keys_app {V} (a b : obj V) : keys (a ++ b)%list = (keys a ++ keys b)%list.
Proof. apply map_app. Qed.

Lemma spread_fresh {V} (r t : obj V) :
  NoDup (keys (t ++ r)%list) -> spread t r = (t ++ r)%list.
Proof.
  unfold spread. revert t. induction r as [| [k v] rs IH]; intros t Hnd; simpl.
  - now rewrite app_nil_r.
  - assert (Hk : ~ In k (keys t)).
    { rewrite keys_app in Hnd. apply NoDup_remove_2 in Hnd.
      intros Hin. apply Hnd. apply in_or_app. now left. }
    rewrite (set_fresh _ _ _ Hk), IH, <- app_assoc; [reflexivity |].
    now rewrite <- app_assoc.
Qed.

Lemma spread_in_place {V} (t' t pre : obj V) :
  keys t = keys t' -> NoDup (keys (pre ++ t)%list) ->
  spread (pre ++ t)%list t' = (pre ++ t')%list.
Proof.
  unfold spread. revert t pre.
  induction t' as [| [k v'] ts' IH]; intros t pre Hkeys Hnd.
  - destruct t; [reflexivity | discriminate].
  - destruct t as [| [k0 v] ts]; [discriminate |].
    cbn [keys map fst] in Hkeys. injection Hkeys as -> Hkeys.
    cbn [fold_left fst snd].
    assert (Hk : ~ In k (keys pre)).
    { rewrite keys_app in Hnd. cbn [keys map fst] in Hnd.
      apply NoDup_remove_2 in Hnd. intros Hin. apply Hnd.
      apply in_or_app. now left. }
    rewrite (set_in_place _ _ _ _ _ Hk).
    change (pre ++ (k, v') :: ts)%list with (pre ++ [(k, v')] ++ ts)%list.
    rewrite app_assoc, (IH ts (pre ++ [(k, v')])%list Hkeys).
    + now rewrite <- app_assoc.
    + rewrite <- app_assoc. rewrite !keys_app in *. exact Hnd.
Qed.

Lemma mergedParams_fixed (m : SearchAPIParams) :
  NoDup (keys m) ->
  (exists rest, keys m = (keys DEFAULT_API_PARAMS ++ rest)%list) ->
  mergedParams m = m.
Proof.
  intros Hnd [rest Hkeys]. unfold mergedParams.
  change (spread [] DEFAULT_API_PARAMS) with DEFAULT_API_PARAMS.
  assert (H3 : keys DEFAULT_API_PARAMS = keys (firstn 3 m)).
  { unfold keys at 2. rewrite <- firstn_map. fold (keys m). rewrite Hkeys.
    reflexivity. }
  rewrite <- (firstn_skipn 3 m) in Hnd.
  rewrite <- (firstn_skipn 3 m).
  generalize dependent (skipn 3 m). generalize dependent (firstn 3 m).
  intros a H3 b Hnd.
  unfold spread. rewrite fold_left_app. fold (spread DEFAULT_API_PARAMS a).
  assert (Ha : spread DEFAULT_API_PARAMS a = a).
  { apply (spread_in_place a DEFAULT_API_PARAMS [] H3).
    repeat constructor; simpl; intuition discriminate. }
  rewrite Ha. fold (spread a b). now apply spread_fresh.
Qed.

(** Merging is idempotent, and so is building on it: the merge of a
    merged set is that set, property by property and in the same order,
    so that the URL built from a set that already carries the defaults
    (or overrides of them) is the URL built from the caller's set. *)
Theorem X13_merge_idempotent (params : SearchAPIParams) :
  mergedParams (mergedParams params) = mergedParams params
  /\ buildSearchAPIUrl (mergedParams params) = buildSearchAPIUrl params.
Proof.
  assert (H : mergedParams (mergedParams params) = mergedParams params).
  { apply mergedParams_fixed; [apply mergedParams_NoDup |].
    unfold mergedParams at 1.
    exact (keys_spread_extends (spread [] DEFAULT_API_PARAMS) params). }
  split; [exact H |]. unfold buildSearchAPIUrl. now rewrite H.
Qed.

(** Decoding forgets how the caller listed the parameters: two sets
    that give the six recognised fields the same values build URLs that
    decode to the same set, whatever the order of their properties and
    whatever else they hold. *)
Theorem X14_decoding_forgets_order (p p' : SearchAPIParams) :
  NoDup (keys p) -> NoDup (keys p') ->
  (forall k,
     In k ["geo_id"; "cat_id"; "summary"; "meta_code"; "country"; "country_id"] ->
     get p k = get p' k) ->
  parseUrl (buildUrl p) = parseUrl (buildUrl p').
Proof.
  intros Hnd Hnd' H. unfold parseUrl, buildUrl.
  apply toSearchAPIParams_only_recognized. intros k Hk.
  rewrite (parseQueryParams_build_ascii p k (recognized_not_proto k Hk)
             (recognized_ascii k Hk)).
  rewrite (parseQueryParams_build_ascii p' k (recognized_not_proto k Hk)
             (recognized_ascii k Hk)).
  rewrite !get_mergedParams by assumption. now rewrite (H k Hk).
Qed.

Lemma X14_decoding_forgets_order_witness :
  parseUrl (buildUrl [("geo_id", VNumber (Int 7)); ("cat_id", VNumber (Int 88));
                      ("page", VNumber (Int 2))])
  = parseUrl (buildUrl [("cat_id", VNumber (Int 88)); ("geo_id", VNumber (Int 7))]).
Proof.
  apply X14_decoding_forgets_order.
  - repeat constructor; simpl; intuition discriminate.
  - repeat constructor; simpl; intuition discriminate.
  - intros k Hk. simpl in Hk.
    destruct Hk as [<- | [<- | [<- | [<- | [<- | [<- | []]]]]]]; reflexivity.
Defined.

(** ** The text of a mismatch *)

Lemma join_head (sep x : string) (r : list string) :
  exists rest, join sep (x :: r) = x ++ rest.
Proof.
  destruct r as [| y r]; simpl.
  - exists EmptyString. induction x as [| c x IH]; simpl; [reflexivity | now rewrite <- IH].
  - eexists. reflexivity.
Qed.

(** The fallback text is dead: whenever the comparison fails, the text
    of the differences in the error is the list of the lines, which
    starts with the name of a compared field, and is never
    [Unknown differences]. *)
Theorem X15_no_unknown_differences (actual expected : SearchAPIParams) :
  matched (compareParams actual expected) = false ->
  (exists ds,
     differences (compareParams actual expected) = Some ds /\
     differences_text (compareParams actual expected) = join (nl ++ "  - ") ds)
  /\ (exists key rest,
        In key ["cat_id"; "geo_id"; "meta_code"] /\
        differences_text (compareParams actual expected)
        = key ++ ": expected " ++ rest)
  /\ differences_text (compareParams actual expected) <> "Unknown differences".
Proof.
  intros Hm.
  destruct (differences (compareParams actual expected)) as [ds |] eqn:Hds.
  2:{ apply matched_differences in Hds. congruence. }
  pose proof (differences_text_join _ _ _ Hds) as Htext.
  assert (Hhead : exists key rest,
            In key ["cat_id"; "geo_id"; "meta_code"] /\
            differences_text (compareParams actual expected)
            = key ++ ": expected " ++ rest).
  { rewrite Htext. rewrite compareParams_differences in Hds.
    destruct (filter (mismatch actual expected) paramsToCompare) as [| key ks] eqn:E;
      [discriminate |].
    injection Hds as <-.
    assert (Hkey : In key paramsToCompare).
    { assert (Hin : In key (filter (mismatch actual expected) paramsToCompare))
        by (rewrite E; now left).
      apply filter_In in Hin. tauto. }
    cbn [map].
    destruct (join_head (nl ++ "  - ") (difference_at actual expected key)
                (map (difference_at actual expected) ks)) as [rest Hrest].
    exists key. eexists. split; [exact Hkey |].
    rewrite Hrest. unfold difference_at, difference.
    rewrite !string_app_assoc. reflexivity. }
  split; [exists ds; now split |]. split; [exact Hhead |].
  destruct Hhead as (key & rest & Hkey & ->).
  destruct Hkey as [<- | [<- | [<- | []]]]; discriminate.
Qed.

Lemma X15_no_unknown_differences_witness :
  differences_text (compareParams [("geo_id", VNumber (Int 7))]
                                  [("geo_id", VNumber (Int 15))])
  <> "Unknown differences".
Proof.
  apply (X15_no_unknown_differences [("geo_id", VNumber (Int 7))]
           [("geo_id", VNumber (Int 15))]).
  reflexivity.
Defined.

(** ** What a search sends, and what validates for free *)

(** Case analysis on a successful translation: the category is absent,
    empty, one of the two entries or an inherited name, and so is the
    location; the goal is left with the parameter set written out. *)
Ltac translation_cases ui :=
  unfold translate, SearchAPIHelper.mapToAPIParams, SearchAPIHelper.map_category,
    SearchAPIHelper.map_location, getCategoryMapping, getLocationMapping, lookup,
    ok, throw;
  let c := fresh "c" in let s := fresh "s" in let l := fresh "l" in
  let m := fresh "m" in let m' := fresh "m" in
  let Ec := fresh "Ec" in let El := fresh "El" in
  destruct (category ui) as [[| c s] |]; cbn [truthy_string];
  try (destruct (get CATEGORY_MAPPINGS (String c s)) as [m |] eqn:Ec;
       [destruct (category_entry _ _ Ec) as [[_ ->] | [_ ->]]
       | destruct (inherited (String c s)); [| discriminate]]);
  (destruct (location ui) as [l |];
   [destruct (get LOCATION_MAPPINGS l) as [m' |] eqn:El;
    [destruct (location_entry _ _ El) as [[_ ->] | [_ ->]]
    | destruct (inherited l); [| discriminate]] |]);
  intros [= <-].

(** Every direct search sends the three defaults unchanged and first:
    the URL requested for a request that translates is the endpoint
    followed by [?summary=1&country=GB&country_id=GB] and then the
    translated fields, if any; decoded, it gives back the defaults. *)
Theorem X16_search_sends_defaults (ui : SearchParameters) (url : string) :
  SearchAPIHelper.search_url ui = ok url ->
  (url = SEARCH_API_URL ++ "?summary=1&country=GB&country_id=GB"
   \/ exists fields,
        url = SEARCH_API_URL ++ "?summary=1&country=GB&country_id=GB&" ++ fields)
  /\ prop (parseUrl url) "summary" = VNumber (Int 1)
  /\ prop (parseUrl url) "country" = VString "GB"
  /\ prop (parseUrl url) "country_id" = VString "GB".
Proof.
  unfold SearchAPIHelper.search_url.
  destruct (SearchAPIHelper.mapToAPIParams ui) as [e | r] eqn:Hui; [discriminate |].
  intros [= <-]. revert Hui. fold (translate ui).
  translation_cases ui;
    (split; [| split; [| split]]; [| reflexivity ..]);
    first [left; reflexivity | right; eexists; reflexivity].
Qed.

Lemma X16_search_sends_defaults_witness :
  prop (parseUrl
          "https://search.vivastreet.co.uk/ajax/regions_tree.php?summary=1&country=GB&country_id=GB&geo_id=7")
       "summary" = VNumber (Int 1).
Proof.
  destruct (X16_search_sends_defaults
              {| category := None; location := Some "London"; keyword := None |}
              _ eq_refl) as (_ & H & _).
  exact H.
Defined.

(** An expectation that sets no field validates anything: with no
    category (or the empty one) and no location, [validateResponse]
    passes on every successful response, whatever its URL, and
    [validateInterceptedRequest] passes on every captured request and
    stops the session. *)
Theorem X17_empty_expectation_passes (ui : SearchParameters) :
  (category ui = None \/ category ui = Some EmptyString) ->
  location ui = None ->
  translate ui = ok []
  /\ (forall response, toBeOK response = ok tt -> validateResponse response ui = ok tt)
  /\ (forall h request,
        interceptedRequest h = Some request ->
        validateInterceptedRequest ui h = (ok tt, idle)).
Proof.
  intros Hcat Hloc.
  assert (Hui : SearchAPIHelper.getAPIParams ui = inr []).
  { unfold SearchAPIHelper.getAPIParams, SearchAPIHelper.mapToAPIParams,
      SearchAPIHelper.map_category, SearchAPIHelper.map_location.
    rewrite Hloc. destruct Hcat as [-> | ->]; reflexivity. }
  split; [exact Hui |]. split.
  - intros response Hok. unfold validateResponse. rewrite Hok, Hui. reflexivity.
  - intros h request Hreq. rewrite validateInterceptedRequest_cases, Hreq, Hui.
    reflexivity.
Qed.

Lemma X17_empty_expectation_passes_witness :
  validateResponse {| status := 200; response_url := "https://example.org/?geo_id=abc" |}
    {| category := Some EmptyString; location := None; keyword := Some "sofa" |}
  = ok tt.
Proof.
  destruct (X17_empty_expectation_passes
              {| category := Some EmptyString; location := None;
                 keyword := Some "sofa" |} (or_intror eq_refl) eq_refl)
    as (_ & H & _).
  exact (H {| status := 200; response_url := "https://example.org/?geo_id=abc" |}
           eq_refl).
Defined.

(** The tables are plain objects, read with [table[label]]: a label
    that is the name of a member of [Object.prototype] ("toString",
    "constructor", ...) is not an entry, yet its lookup is not
    [undefined]; the translation then throws nothing and sets the fields
    to [undefined], which the comparison skips, so the validation of
    such a label passes on every successful response. *)
Theorem X18_inherited_label (label : string) (kw : option string)
    (response : APIResponse) :
  In label Object_prototype_members ->
  get CATEGORY_MAPPINGS label = None
  /\ get LOCATION_MAPPINGS label = None
  /\ translate {| category := Some label; location := Some label; keyword := kw |}
     = ok [("cat_id", VUndefined); ("meta_code", VUndefined); ("geo_id", VUndefined)]
  /\ (toBeOK response = ok tt ->
      validateResponse response
        {| category := Some label; location := Some label; keyword := kw |} = ok tt).
Proof.
  intros Hin.
  assert (H : get CATEGORY_MAPPINGS label = None
              /\ get LOCATION_MAPPINGS label = None
              /\ translate {| category := Some label; location := Some label;
                              keyword := kw |}
                 = ok [("cat_id", VUndefined); ("meta_code", VUndefined);
                       ("geo_id", VUndefined)]).
  { unfold Object_prototype_members in Hin. simpl in Hin.
    repeat (destruct Hin as [<- | Hin]; [repeat split; reflexivity |]).
    destruct Hin. }
  destruct H as (H1 & H2 & H3). repeat split; try assumption.
  intros Hok. unfold validateResponse. rewrite Hok.
  change (SearchAPIHelper.getAPIParams
            {| category := Some label; location := Some label; keyword := kw |})
    with (translate {| category := Some label; location := Some label;
                       keyword := kw |}).
  rewrite H3. reflexivity.
Qed.

Lemma X18_inherited_label_witness :
  validateResponse {| status := 200; response_url := SEARCH_API_URL ++ "?cat_id=1" |}
    {| category := Some "constructor"; location := Some "constructor";
       keyword := None |}
  = ok tt.
Proof.
  destruct (X18_inherited_label "constructor" None
              {| status := 200; response_url := SEARCH_API_URL ++ "?cat_id=1" |})
    as (_ & _ & _ & H).
  - simpl. tauto.
  - exact (H eq_refl).
Defined.

(** ** The raw parameters of a URL *)

Lemma fold_assign_inv (l : list (string * string)) (o : obj string) :
  NoDup (keys o) -> ~ In "__proto__" (keys o) ->
  let params := fold_left (fun ps kv => assign (fst kv) (snd kv) ps) l o in
  NoDup (keys params) /\ ~ In "__proto__" (keys params).
Proof.
  intros Hnd Hproto. revert o Hnd Hproto.
  induction l as [| [k v] l IH]; intros o Hnd Hproto; [now split |].
  cbn [fold_left fst snd]. apply IH; unfold assign;
    destruct (String.eqb k "__proto__") eqn:E; try assumption.
  - now apply NoDup_set.
  - rewrite In_keys_set. intros [H | H]; [| contradiction].
    apply String.eqb_neq in E. congruence.
Qed.

(** The object [parseQueryParams] returns: its keys are distinct, none
    is [__proto__] (an assignment to that name is swallowed by the
    inherited setter), every property it holds is a pair of the query,
    and every name of the query but [__proto__] is a property, holding
    the value of its last occurrence. *)
Theorem X19_raw_parameters (url : string) :
  NoDup (keys (parseQueryParams url))
  /\ get (parseQueryParams url) "__proto__" = None
  /\ (forall k v, In (k, v) (parseQueryParams url) -> In (k, v) (URL_searchParams url))
  /\ (forall k v, k <> "__proto__" -> In (k, v) (URL_searchParams url) ->
        exists w, get (parseQueryParams url) k = Some w /\
                  get (rev (URL_searchParams url)) k = Some w).
Proof.
  destruct (fold_assign_inv (URL_searchParams url) []) as [Hnd Hproto];
    [constructor | intros [] |].
  fold (parseQueryParams url) in Hnd, Hproto.
  split; [exact Hnd |]. split; [now apply get_None_notin |]. split.
  - intros k v Hin.
    assert (Hk : k <> "__proto__").
    { intros ->. apply Hproto. change "__proto__" with (fst ("__proto__", v)).
      now apply in_map. }
    pose proof (In_get_NoDup _ _ _ Hnd Hin) as Hget.
    rewrite (parseQueryParams_get _ _ Hk) in Hget.
    apply get_In, in_rev in Hget. exact Hget.
  - intros k v Hk Hin. rewrite (parseQueryParams_get _ _ Hk).
    destruct (get (rev (URL_searchParams url)) k) as [w |] eqn:E; [now exists w |].
    exfalso. apply get_None_notin in E. apply E.
    change k with (fst (k, v)). apply in_map. now apply in_rev in Hin.
Qed.

Lemma X19_raw_parameters_witness :
  exists w,
    get (parseQueryParams (SEARCH_API_URL ++ "?geo_id=7&__proto__=x&geo_id=15")) "geo_id"
    = Some w /\
    get (rev (URL_searchParams (SEARCH_API_URL ++ "?geo_id=7&__proto__=x&geo_id=15")))
        "geo_id" = Some w.
Proof.
  destruct (X19_raw_parameters (SEARCH_API_URL ++ "?geo_id=7&__proto__=x&geo_id=15"))
    as (_ & _ & _ & H).
  apply (H "geo_id" "7"); [discriminate | simpl; tauto].
Defined.

(** ** The page object's own state *)

Lemma endsWith_spec (s suffix : string) :
  SearchResultsPage.endsWith s suffix = true <-> exists before, s = before ++ suffix.
Proof.
  induction s as [| c r IH].
  - cbn [SearchResultsPage.endsWith]. destruct (String.eqb EmptyString suffix) eqn:E.
    + apply String.eqb_eq in E. subst suffix. split; [| reflexivity].
      intros _. now exists EmptyString.
    + apply String.eqb_neq in E. split; [discriminate |].
      intros [[| b before] H]; simpl in H; [congruence | discriminate].
  - cbn [SearchResultsPage.endsWith]. destruct (String.eqb (String c r) suffix) eqn:E.
    + apply String.eqb_eq in E. subst suffix. split; [| reflexivity].
      intros _. now exists EmptyString.
    + apply String.eqb_neq in E. rewrite IH. split.
      * intros [before ->]. now exists (String c before).
      * intros [[| b before] H]; simpl in H; [congruence |].
        injection H as _ ->. now exists before.
Qed.

(** A filter toggle can switch its box on and never off: after
    [toggle(state)] the box is checked when it was checked or [state] is
    true, so that [toggle(false)] leaves every box as it found it; and a
    second call with the same argument changes nothing. *)
Theorem X20_toggle_never_unchecks (state isChecked : bool) :
  SearchResultsPage.toggleCheckbox state isChecked = isChecked || state
  /\ SearchResultsPage.toggleCheckbox false isChecked = isChecked
  /\ SearchResultsPage.toggleCheckbox state
       (SearchResultsPage.toggleCheckbox state isChecked)
     = SearchResultsPage.toggleCheckbox state isChecked.
Proof. destruct state, isChecked; repeat split; reflexivity. Qed.

(** [verifyOpenedAd] after [clickSearchResult]: when the clicked card
    has no [data-clad-id], or an empty one, the verification throws that
    no ad was clicked; otherwise it passes exactly when the URL of the
    page ends with [/] and the identifier and the element of the ad is
    visible. *)
Theorem X21_verify_opened_ad (dataCladId : option string) (currentUrl : string)
    (adVisible : bool) :
  ((dataCladId = None \/ dataCladId = Some EmptyString) ->
   SearchResultsPage.verifyOpenedAd
     (SearchResultsPage.clickSearchResult dataCladId) currentUrl adVisible
   = throw (Error "No ad was clicked. Call clickSearchResult() first."))
  /\ (forall c r, dataCladId = Some (String c r) ->
        (SearchResultsPage.verifyOpenedAd
           (SearchResultsPage.clickSearchResult dataCladId) currentUrl adVisible
         = ok tt
         <-> (exists before, currentUrl = before ++ "/" ++ String c r)
             /\ adVisible = true)).
Proof.
  split.
  - intros [-> | ->]; reflexivity.
  - intros c r ->. cbn [SearchResultsPage.clickSearchResult truthy_string].
    unfold SearchResultsPage.verifyOpenedAd. cbv zeta.
    rewrite <- endsWith_spec.
    destruct (SearchResultsPage.endsWith currentUrl ("/" ++ String c r));
      destruct adVisible; split; try discriminate; try tauto;
      intros [H1 H2]; discriminate.
Qed.

Lemma X21_verify_opened_ad_witness :
  SearchResultsPage.verifyOpenedAd
    (SearchResultsPage.clickSearchResult (Some "12345"))
    "https://www.vivastreet.co.uk/escort/london/12345" true
  = ok tt.
Proof.
  destruct (X21_verify_opened_ad (Some "12345")
              "https://www.vivastreet.co.uk/escort/london/12345" true) as (_ & H).
  apply (H "1"%char "2345" eq_refl). split; [| reflexivity].
  exists "https://www.vivastreet.co.uk/escort/london". reflexivity.
Defined.
